(** * sims_coordUtils: the astrometry mixin and the chip-lookup validation

    A shallow embedding of [python/lsst/sims/coordUtils/Astrometry.py]
    (class [AstrometryBase] and its two mixins) and of the argument validation that
    [tests/testCameraUtils.py] exercises.

    Python floats and numpy float64 entries are IEEE binary64 numbers: they
    are modelled by Rocq's primitive floats, whose operations are specified
    against [SpecFloat] by the Standard Library.  numpy arrays and Python
    lists of floats are [list float]; an array the callee writes into lives
    in a heap of arrays, addressed by location, so that the caller sees the
    write.  Exceptions are the error side of a small result monad.  The
    routines of the external PAL library (palpy) and [numpy.cos] are an
    interface the development is parametric in. *)

From Stdlib Require Import ZArith List String Ascii Bool Lia Floats DecimalString.
From stdpp Require Import base option list gmap strings.

Open Scope string_scope.

(** ** Exceptions and the result monad *)

Inductive exn : Type :=
| ValueError (msg : string)
| IndexError
| RuntimeError (msg : string)
| ZeroDivisionError (msg : string).

Inductive result (A : Type) : Type :=
| Ok (a : A)
| Raise (e : exn).

Arguments Ok {A} a.
Arguments Raise {A} e.

#[global] Instance result_ret : MRet result := fun A a => Ok a.

#[global] Instance result_bind : MBind result := fun A B k m =>
  match m with
  | Ok a => k a
  | Raise e => Raise e
  end.

#[global] Instance result_fmap : FMap result := fun A B f m =>
  match m with
  | Ok a => Ok (f a)
  | Raise e => Raise e
  end.

Definition is_ok {A : Type} (r : result A) : bool :=
  match r with Ok _ => true | Raise _ => false end.

(** ** Arrays *)

(** [a[i]] for [i >= 0]: an index past the end raises [IndexError]. *)
Definition getitem {A : Type} (a : list A) (i : nat) : result A :=
  match a !! i with
  | Some x => Ok x
  | None => Raise IndexError
  end.

(** [numpy.zeros(n)] *)
Definition zeros (n : nat) : list float := replicate n 0%float.

(** [for i in range(start, start + count): s = body(i, s)], stopping at the
    first exception. *)
Fixpoint for_range {S : Type} (body : nat -> S -> result S)
    (start count : nat) (s : S) : result S :=
  match count with
  | O => Ok s
  | Datatypes.S k => s' ← body start s; for_range body (Datatypes.S start) k s'
  end.

(** The results of [g start], ..., [g (start + count - 1)] in a list, or the
    first exception among them. *)
Fixpoint collect {A : Type} (g : nat -> result A) (start count : nat) : result (list A) :=
  match count with
  | O => Ok []
  | Datatypes.S k => v ← g start; vs ← collect g (Datatypes.S start) k; Ok (v :: vs)
  end.

(** A loop turn that computes a pair and stores it at index [i] of two
    output arrays. *)
Definition fill_step {A : Type} (g : nat -> result (A * A)) (i : nat)
    (out : list A * list A) : result (list A * list A) :=
  v ← g i; Ok (<[i := v.1]> out.1, <[i := v.2]> out.2).

(** ['%d' % n] *)
Definition fmt_d (n : nat) : string := NilZero.string_of_uint (Nat.to_uint n).

(** [needle in haystack] on strings *)
Fixpoint contains (needle haystack : string) : bool :=
  String.prefix needle haystack ||
  match haystack with
  | EmptyString => false
  | String _ rest => contains needle rest
  end.

(** ** Floating-point constants of the module *)

Module Const.
(** [math.pi = numpy.pi = 3.141592653589793] *)
Definition pi : float := 0x1.921fb54442d18p+1%float.
(** [EPSILON = 1.e-10] in [applyProperMotion] *)
Definition EPSILON : float := 0x1.b7cdfd9d7bdbbp-34%float.
(** the parallax floor [0.00045] of [applyProperMotion] *)
Definition min_parallax : float := 0x1.d7dbf487fcb92p-12%float.
(** [pm_tol = 1.0e-9] in [applyMeanApparentPlace] *)
Definition pm_tol : float := 0x1.12e0be826d695p-30%float.
(** [dut = 0.3] in [applyMeanObservedPlace] *)
Definition dut : float := 0x1.3333333333333p-2%float.
(** [2.*math.pi] *)
Definition two_pi : float := (2 * pi)%float.
(** [degPerRadian = 180.0/numpy.pi] *)
Definition degPerRadian : float := (180 / pi)%float.
End Const.

(** ** Python's [%] on floats *)

(** Left shift of a positive mantissa, and the normal form [m * 2^e] takes in
    binary64 when it has at most [prec] digits and [emin <= e]. *)
Definition canonical_exponent (m : positive) (e : Z) : Z :=
  fexp prec emax (Z.pos (digits2_pos m) + e)%Z.

Definition SFcanonical (s : bool) (m : positive) (e : Z) : spec_float :=
  let e' := canonical_exponent m e in
  S754_finite s (Pos.iter xO m (Z.to_pos (e - e')%Z)) e'.

Definition SFnormal (s : bool) (m : positive) (e : Z) : spec_float :=
  if (canonical_exponent m e <? e)%Z then SFcanonical s m e else S754_finite s m e.

(** C's [fmod(x, y)]: the exact remainder [x - n*y] with [n] the quotient
    truncated towards zero, so the result has the sign of [x] and a smaller
    magnitude than [y].  On binary64 operands in normal form: when the
    exponent of [x] is below that of [y], [|x| < |y|] and the result is [x];
    otherwise the remainder of the mantissas at the exponent of [y]. *)
Definition SFfmod (x y : spec_float) : spec_float :=
  match x, y with
  | S754_nan, _ | _, S754_nan => S754_nan
  | S754_infinity _, _ => S754_nan
  | _, S754_zero _ => S754_nan
  | S754_zero _, _ => x
  | S754_finite _ _ _, S754_infinity _ => x
  | S754_finite sx mx ex, S754_finite _ my ey =>
      if (ex <? ey)%Z then x
      else
        match ((Z.pos mx * 2 ^ (ex - ey)) mod Z.pos my)%Z with
        | Z.pos r => SFnormal sx r ey
        | _ => S754_zero sx
        end
  end.

Definition fmod (x y : float) : float := SF2Prim (SFfmod (Prim2SF x) (Prim2SF y)).

(** The magnitude of a number in units of [2^-1074], the smallest positive
    binary64 number. *)
Definition SFmagnitude (x : spec_float) : Z :=
  match x with
  | S754_finite _ m e => (Z.pos m * 2 ^ (e + 1074))%Z
  | _ => 0%Z
  end.

(** CPython's [float_rem]: [vx % wx]. *)
Definition float_rem (vx wx : float) : result float :=
  if (wx =? 0)%float then Raise (ZeroDivisionError "float modulo")
  else
    let rem := fmod vx wx in
    if negb (rem =? 0)%float then
      (* ensure the remainder has the same sign as the denominator *)
      if xorb (wx <? 0)%float (rem <? 0)%float then Ok (rem + wx)%float
      else Ok rem
    else
      (* the remainder is zero: give it the sign of the denominator *)
      let rem := (rem * rem)%float in
      if (wx <? 0)%float then Ok (- rem)%float else Ok rem.

(** ** The external routines *)

(** What [pal.aopqk] returns, a 5-tuple: index 0 is the azimuth, 1 the zenith
    distance, 2 the hour angle, 3 the declination, 4 the right ascension. *)
Record aopqk_output : Type := {
  aop_0 : float;
  aop_1 : float;
  aop_2 : float;
  aop_3 : float;
  aop_4 : float
}.

(** The site parameters [self.site] *)
Record Site : Type := {
  longitude : float;
  latitude : float;
  height : float;
  xPolar : float;
  yPolar : float;
  meanTemperature : float;
  meanPressure : float;
  meanHumidity : float;
  lapseRate : float
}.

(** The routines of palpy that the module calls, and [numpy.cos]. *)
Class Pal : Type := {
  mappa_params : Type;
  aoppa_params : Type;
  pal_epj : float -> float;
  pal_pm : float -> float -> float -> float -> float -> float -> float -> float ->
           float * float;
  pal_mappa : float -> float -> mappa_params;
  pal_mapqk : float -> float -> float -> float -> float -> float -> mappa_params ->
              float * float;
  pal_mapqkz : float -> float -> mappa_params -> float * float;
  pal_aoppa : float -> float -> float -> float -> float -> float -> float -> float ->
              float -> float -> float -> float -> aoppa_params;
  pal_aopqk : float -> float -> aoppa_params -> aopqk_output;
  pal_de2h : float -> float -> float -> float * float;
  pal_gmsta : float -> float -> float;
  numpy_cos : float -> float
}.

(** The part of [self] the methods read: the site, [self.obs_metadata.mjd],
    [self.db_obj.epoch] and the two catalog columns. *)
Record Catalog : Type := {
  site : Site;
  obs_metadata_mjd : float;
  db_obj_epoch : float;
  raJ2000 : list float;
  decJ2000 : list float
}.

(** ** The heap of caller-visible arrays *)

(** A Python name holds a reference: an argument array is a location of the
    heap, and two arguments may name the same array.  Locations outside the
    heap do not occur in a call; they read as the empty array. *)
Abbreviation loc := positive.
Abbreviation heap := (gmap loc (list float)).

Definition deref (h : heap) (l : loc) : list float := default [] (h !! l).

(** [for i in range(start, start + count): s = body(i, s)] for a body that
    cannot raise. *)
Fixpoint iter_range {S : Type} (body : nat -> S -> S) (start count : nat) (s : S) : S :=
  match count with
  | O => s
  | Datatypes.S k => iter_range body (Datatypes.S start) k (body start s)
  end.

(** ** The further external routines *)

(** [pal.eqgal], [pal.galeq] and [pal.ds2tp] of palpy, [numpy.sin] and
    [numpy.arccos], and the C library's [sin], [cos] and [asin] behind
    [math.sin], [math.cos] and [math.asin].  [pal.ds2tp] raises [ValueError]
    when the star cannot be projected on the tangent plane; the other
    routines always return. *)
Class PalExt : Type := {
  pal_eqgal : float -> float -> float * float;
  pal_galeq : float -> float -> float * float;
  pal_ds2tp : float -> float -> float -> float -> result (float * float);
  numpy_sin : float -> float;
  numpy_arccos : float -> float;
  libm_sin : float -> float;
  libm_cos : float -> float;
  libm_asin : float -> float
}.

(** CPython's [math_1], the wrapper of [math.sqrt], [math.sin], [math.cos]
    and [math.asin] around the C function: a NaN result for an argument that
    is not NaN, and an infinite result for a finite argument, raise
    [ValueError]. *)
Definition math_1 (func : float -> float) (x : float) : result float :=
  let r := func x in
  if is_nan r && negb (is_nan x) then Raise (ValueError "math domain error")
  else if is_infinity r && is_finite x then Raise (ValueError "math domain error")
  else Ok r.

(** [math.sqrt]: the square root of binary64 is correctly rounded. *)
Definition math_sqrt (x : float) : result float := math_1 PrimFloat.sqrt x.

(** Python's [/] on two floats: a zero divisor of either sign raises. *)
Definition float_div (a b : float) : result float :=
  if (b =? 0)%float then Raise (ZeroDivisionError "float division by zero")
  else Ok (a / b)%float.

(** A vector of three floats, and [numpy.cross] and [numpy.dot] on two of
    them. *)
Definition vec3 : Type := float * float * float.

Definition numpy_cross (a b : vec3) : vec3 :=
  let '(a0, a1, a2) := a in
  let '(b0, b1, b2) := b in
  (a1 * b2 - a2 * b1, a2 * b0 - a0 * b2, a0 * b1 - a1 * b0)%float.

Definition numpy_dot (a b : vec3) : float :=
  let '(a0, a1, a2) := a in
  let '(b0, b1, b2) := b in
  (a0 * b0 + a1 * b1 + a2 * b2)%float.

(** A zero of either sign, or NaN. *)
Definition zero_or_nan (x : float) : bool :=
  match Prim2SF x with
  | S754_zero _ | S754_nan => true
  | _ => false
  end.

(** A method that reads a Python dictionary raises [KeyError] with the
    missing key, or goes on: [Found] holds what the rest of the method
    returns or raises. *)
Inductive keyed (A : Type) : Type :=
| KeyError (key : string)
| Found (a : A).

Arguments KeyError {A} key.
Arguments Found {A} a.

(** [d[key]] *)
Definition dict_getitem (d : gmap string float) (key : string) : keyed float :=
  match d !! key with
  | Some v => Found v
  | None => KeyError key
  end.

(** [key in d] *)
Definition has_key (d : gmap string float) (key : string) : bool :=
  match d !! key with
  | Some _ => true
  | None => false
  end.

(** Entry [i] of two arrays, and a routine applied to the two entries. *)
Definition star_pair (f : float -> float -> float * float) (a b : list float) (i : nat)
    : result (float * float) :=
  x ← getitem a i; y ← getitem b i; Ok (f x y).

(** * class AstrometryBase *)

Module AstrometryBase.
Section Methods.

Context `{P : Pal}.
Variable self : Catalog.

Open Scope float_scope.

(** *** applyProperMotion (lines 146-206) *)

(** Lines 185-186, one turn of the first loop: [parallax[i]] is read from
    and written to the array the caller passed.  [i] ranges over
    [range(len(parallax))], so the read cannot fail. *)
Definition clamp_parallax_step (parallax : loc) (i : nat) (h : heap) : heap :=
  match deref h parallax !! i with
  | Some x =>
      if x <? Const.min_parallax
      then <[parallax := <[i := Const.min_parallax]> (deref h parallax)]> h
      else h
  | None => h
  end.

(** Lines 196-204, one turn of the second loop. *)
Definition proper_motion_step (ra dec pm_ra pm_dec parallax v_rad : list float)
    (EP0 julianEpoch : float) (i : nat) (out : list float * list float)
    : result (list float * list float) :=
  let '(raOut, decOut) := out in
  a ← getitem pm_ra i;
  moving ← (if Const.EPSILON <? abs a then Ok true
            else b ← getitem pm_dec i; Ok (Const.EPSILON <? abs b));
  if (moving : bool) then
    r ← getitem ra i;
    d ← getitem dec i;
    a ← getitem pm_ra i;
    b ← getitem pm_dec i;
    d' ← getitem dec i;
    p ← getitem parallax i;
    v ← getitem v_rad i;
    let _raAndDec := pal_pm r d a (b / numpy_cos d') p v EP0 julianEpoch in
    Ok (<[i := _raAndDec.1]> raOut, <[i := _raAndDec.2]> decOut)
  else
    r ← getitem ra i;
    let raOut := <[i := r]> raOut in
    d ← getitem dec i;
    Ok (raOut, <[i := d]> decOut).

(** What the second loop stores for one star: [pal.pm]'s output when a
    proper motion exceeds [EPSILON] in magnitude, the star's own entries
    otherwise. *)
Definition moved_place (r d a b p v EP0 julianEpoch : float) : float * float :=
  pal_pm r d a (b / numpy_cos d) p v EP0 julianEpoch.

Definition proper_motion_star (ra dec pm_ra pm_dec parallax v_rad : list float)
    (EP0 julianEpoch : float) (i : nat) : result (float * float) :=
  a ← getitem pm_ra i;
  moving ← (if Const.EPSILON <? abs a then Ok true
            else b ← getitem pm_dec i; Ok (Const.EPSILON <? abs b));
  if (moving : bool) then
    r ← getitem ra i; d ← getitem dec i; b ← getitem pm_dec i;
    p ← getitem parallax i; v ← getitem v_rad i;
    Ok (moved_place r d a b p v EP0 julianEpoch)
  else
    r ← getitem ra i; d ← getitem dec i; Ok (r, d).

(** The first loop as a whole: every entry below the floor is replaced. *)
Definition clamp (x : float) : float :=
  if x <? Const.min_parallax then Const.min_parallax else x.

Definition clamp_heap (parallax : loc) (h : heap) : heap :=
  match h !! parallax with
  | Some arr => <[parallax := clamp <$> arr]> h
  | None => h
  end.

(** The arguments are references into [h]; the result is the heap the caller
    sees afterwards and what the call returns or raises. *)
Definition applyProperMotion (ra dec pm_ra pm_dec parallax v_rad : loc)
    (EP0 MJD : float) (h : heap) : heap * result (list float * list float) :=
  let h := iter_range (clamp_parallax_step parallax) 0 (length (deref h parallax)) h in
  let n := length (deref h ra) in
  let raOut := zeros n in
  let decOut := zeros n in
  let julianEpoch := pal_epj (obs_metadata_mjd self) in
  (h, for_range (proper_motion_step (deref h ra) (deref h dec) (deref h pm_ra)
                   (deref h pm_dec) (deref h parallax) (deref h v_rad) EP0 julianEpoch)
        0 n (raOut, decOut)).

(** *** applyMeanApparentPlace (lines 233-323) *)

Definition length_mismatch_message (n_ra n_dec : nat) : string :=
  ("in Astrometry.py:applyMeanApparentPlace len(ra) " ++ fmt_d n_ra ++
   " len(dec) " ++ fmt_d n_dec ++ " ")%string.

(** [x == None] followed by the default: the comparison is true of [None]
    only (an array compared with [None] is false in the numpy the module was
    written for). *)
Definition or_zeros (x : option (list float)) (n : nat) : list float :=
  match x with
  | None => zeros n
  | Some a => a
  end.

(** Lines 311-321, one turn of the loop; [or] evaluates its operands from
    the left and stops at the first true one. *)
Definition mean_apparent_step (ra dec pm_ra pm_dec parallax v_rad : list float)
    (prms : mappa_params) (i : nat) (out : list float * list float)
    : result (list float * list float) :=
  let '(raOut, decOut) := out in
  a ← getitem pm_ra i;
  moving ← (if Const.pm_tol <? abs a then Ok true else
            b ← getitem pm_dec i;
            if Const.pm_tol <? abs b then Ok true else
            p ← getitem parallax i;
            if Const.pm_tol <? abs p then Ok true else
            v ← getitem v_rad i;
            Ok (Const.pm_tol <? abs v));
  _mapqkOutput ←
    (if (moving : bool) then
       r ← getitem ra i;
       d ← getitem dec i;
       a ← getitem pm_ra i;
       b ← getitem pm_dec i;
       p ← getitem parallax i;
       v ← getitem v_rad i;
       Ok (pal_mapqk r d a b p v prms)
     else
       r ← getitem ra i;
       d ← getitem dec i;
       Ok (pal_mapqkz r d prms));
  Ok (<[i := _mapqkOutput.1]> raOut, <[i := _mapqkOutput.2]> decOut).

(** What the loop stores for one star, as a function of the star's entries:
    [pal.mapqk] when a proper motion, the parallax or the radial velocity
    exceeds [pm_tol] in magnitude, [pal.mapqkz] otherwise. *)
Definition exceeds (tol x : float) : bool := tol <? abs x.

Definition apparent_place (r d a b p v : float) (prms : mappa_params) : float * float :=
  if exceeds Const.pm_tol a || exceeds Const.pm_tol b ||
     exceeds Const.pm_tol p || exceeds Const.pm_tol v
  then pal_mapqk r d a b p v prms
  else pal_mapqkz r d prms.

(** Entry [i] of the six arrays, and what the loop stores for it. *)
Definition apparent_star (ra dec pm_ra pm_dec parallax v_rad : list float)
    (prms : mappa_params) (i : nat) : result (float * float) :=
  r ← getitem ra i; d ← getitem dec i; a ← getitem pm_ra i;
  b ← getitem pm_dec i; p ← getitem parallax i; v ← getitem v_rad i;
  Ok (apparent_place r d a b p v prms).

Definition applyMeanApparentPlace (ra dec : list float)
    (pm_ra pm_dec parallax v_rad : option (list float)) (Epoch0 MJD : float)
    : result (list float * list float) :=
  if negb (length ra =? length dec)%nat then
    Raise (ValueError (length_mismatch_message (length ra) (length dec)))
  else
    let pm_ra := or_zeros pm_ra (length ra) in
    let pm_dec := or_zeros pm_dec (length ra) in
    let v_rad := or_zeros v_rad (length ra) in
    let parallax := or_zeros parallax (length ra) in
    let prms := pal_mappa Epoch0 MJD in
    let raOut := zeros (length ra) in
    let decOut := zeros (length ra) in
    for_range (mean_apparent_step ra dec pm_ra pm_dec parallax v_rad prms)
      0 (length ra) (raOut, decOut).

(** *** applyMeanObservedPlace (lines 325-426) *)

(** The two shapes of the returned tuple. *)
Inductive observed_place : Type :=
| RaDec (raOut decOut : list float)
| RaDecAltAz (raOut decOut alt az : list float).

Definition observed_ra_dec (o : observed_place) : list float * list float :=
  match o with
  | RaDec raOut decOut => (raOut, decOut)
  | RaDecAltAz raOut decOut _ _ => (raOut, decOut)
  end.

(** Lines 366-390 *)
Definition observed_params (MJD : float) (includeRefraction : bool)
    (wavelength : float) : aoppa_params :=
  let s := site self in
  if includeRefraction then
    pal_aoppa MJD Const.dut (longitude s) (latitude s) (height s) (xPolar s) (yPolar s)
      (meanTemperature s) (meanPressure s) (meanHumidity s) wavelength (lapseRate s)
  else
    pal_aoppa MJD Const.dut (longitude s) (latitude s) (height s) (xPolar s) (yPolar s)
      (meanTemperature s) 0 0 wavelength (lapseRate s).

(** Lines 409-421, one turn of the loop.  [alt] and [az] are bound only when
    [altAzHr] is true; otherwise the state carries two arrays nobody reads. *)
Definition mean_observed_step (ra dec : list float) (obsPrms : aoppa_params)
    (altAzHr : bool) (i : nat)
    (st : list float * list float * list float * list float)
    : result (list float * list float * list float * list float) :=
  let '(raOut, decOut, alt, az) := st in
  r ← getitem ra i;
  d ← getitem dec i;
  let _aopqkOutput := pal_aopqk r d obsPrms in
  let hourAngle := aop_2 _aopqkOutput in
  let raOut := <[i := aop_4 _aopqkOutput]> raOut in
  let decOut := <[i := aop_3 _aopqkOutput]> decOut in
  if altAzHr then
    di ← getitem decOut i;
    let _de2hOutput := pal_de2h hourAngle di (latitude (site self)) in
    Ok (raOut, decOut, <[i := _de2hOutput.2]> alt, <[i := _de2hOutput.1]> az)
  else
    Ok (raOut, decOut, alt, az).

(** What the loop stores for one star: entries 4 and 3 of [pal.aopqk]'s
    output. *)
Definition observed_place_of (r d : float) (obsPrms : aoppa_params) : float * float :=
  (aop_4 (pal_aopqk r d obsPrms), aop_3 (pal_aopqk r d obsPrms)).

Definition observed_star (ra dec : list float) (obsPrms : aoppa_params) (i : nat)
    : result (float * float) :=
  r ← getitem ra i; d ← getitem dec i; Ok (observed_place_of r d obsPrms).

(** What the loop stores in [alt] and [az] for one star: entries 1 and 0 of
    [pal.de2h]'s output at the observed hour angle and declination. *)
Definition horizon_of (r d : float) (obsPrms : aoppa_params) : float * float :=
  let o := pal_aopqk r d obsPrms in
  let h := pal_de2h (aop_2 o) (aop_3 o) (latitude (site self)) in
  (h.2, h.1).

Definition horizon_star (ra dec : list float) (obsPrms : aoppa_params) (i : nat)
    : result (float * float) :=
  r ← getitem ra i; d ← getitem dec i; Ok (horizon_of r d obsPrms).

Definition applyMeanObservedPlace (ra dec : list float) (MJD : float)
    (includeRefraction altAzHr : bool) (wavelength : float)
    : result observed_place :=
  let obsPrms := observed_params MJD includeRefraction wavelength in
  let raOut := zeros (length ra) in
  let decOut := zeros (length ra) in
  let alt := if altAzHr then zeros (length ra) else [] in
  let az := if altAzHr then zeros (length ra) else [] in
  '(raOut, decOut, alt, az) ←
    for_range (mean_observed_step ra dec obsPrms altAzHr) 0 (length ra)
      (raOut, decOut, alt, az);
  if negb altAzHr then Ok (RaDec raOut decOut)
  else Ok (RaDecAltAz raOut decOut alt az).

(** *** correctCoordinates (lines 428-471) *)

(** [ra_out * degPerRadian] on an array *)
Definition scale (k : float) (a : list float) : list float :=
  (fun x => x * k) <$> a.

(** [applyMeanObservedPlace] is called with its defaults [altAzHr=False] and
    [wavelength=5000.]; unpacking its result into two names fails on a
    4-tuple.  The result stands for [numpy.array([ra_out,dec_out])]. *)
Definition correctCoordinates (pm_ra pm_dec parallax v_rad : option (list float))
    (includeRefraction inDegrees : bool) : result (list float * list float) :=
  let ra := raJ2000 self in
  let dec := decJ2000 self in
  let ep0 := db_obj_epoch self in
  let mjd := obs_metadata_mjd self in
  '(ra_apparent, dec_apparent) ←
    applyMeanApparentPlace ra dec pm_ra pm_dec parallax v_rad ep0 mjd;
  observed ← applyMeanObservedPlace ra_apparent dec_apparent mjd includeRefraction
               false 5000;
  match observed with
  | RaDec ra_out dec_out =>
      if inDegrees then
        Ok (scale Const.degPerRadian ra_out, scale Const.degPerRadian dec_out)
      else Ok (ra_out, dec_out)
  | RaDecAltAz _ _ _ _ => Raise (ValueError "too many values to unpack")
  end.

(** *** calcLast (lines 517-524) *)

Definition calcLast (mjd long : float) : result float :=
  let D := pal_gmsta mjd 0 in
  let D := D + long in
  D ← float_rem D (2 * Const.pi);
  Ok D.

End Methods.

Section MoreMethods.

Context `{P : Pal} `{Q : PalExt}.
Variable self : Catalog.

Open Scope float_scope.

(** *** get_galactic_coords (lines 10-29)

    The body of the getter; the result stands for
    [numpy.array([glon,glat])]. *)

Definition galactic_coords_step (ra dec : list float) (i : nat)
    (out : list float * list float) : result (list float * list float) :=
  let '(glon, glat) := out in
  r ← getitem ra i;
  d ← getitem dec i;
  let gg := pal_eqgal r d in
  Ok (<[i := gg.1]> glon, <[i := gg.2]> glat).

Definition get_galactic_coords : result (list float * list float) :=
  let ra := raJ2000 self in
  let dec := decJ2000 self in
  let glon := zeros (length ra) in
  let glat := zeros (length ra) in
  for_range (galactic_coords_step ra dec) 0 (length ra) (glon, glat).

(** *** rotationMatrixFromVectors (lines 80-109) *)

Definition math_sin (x : float) : result float := math_1 libm_sin x.
Definition math_cos (x : float) : result float := math_1 libm_cos x.

(** [cross / s] on the array [cross] *)
Definition vec3_div (v : vec3) (s : float) : vec3 :=
  let '(v0, v1, v2) := v in (v0 / s, v1 / s, v2 / s).

(** The list of three rows that lines 101-107 build. *)
Definition rotation_rows (cross : vec3) (sinDot cosDot : float) : list (list float) :=
  let '(c0, c1, c2) := cross in
  [[cosDot + c0 * c0 * (1 - cosDot); (- c2) * sinDot + (1 - cosDot) * c0 * c1;
    c1 * sinDot + (1 - cosDot) * c0 * c2];
   [c2 * sinDot + (1 - cosDot) * c0 * c1; cosDot + (1 - cosDot) * c1 * c1;
    (- c0) * sinDot + (1 - cosDot) * c1 * c2];
   [(- c1) * sinDot + (1 - cosDot) * c0 * c2;
    c0 * sinDot + (1 - cosDot) * c1 * c2;
    cosDot + (1 - cosDot) * (c2 * c2)]].

Definition rotationMatrixFromVectors (v1 v2 : vec3) : result (list (list float)) :=
  let cross := numpy_cross v1 v2 in
  norm ← math_sqrt (numpy_dot cross cross);
  let cross := vec3_div cross norm in
  let angle := numpy_arccos (numpy_dot v1 v2) in
  sinDot ← math_sin angle;
  cosDot ← math_cos angle;
  let rot := rotation_rows cross sinDot cosDot in
  Ok rot.

(** *** equatorialToGalactic (lines 209-219) *)

Definition equatorial_to_galactic_step (ra dec : list float) (i : nat)
    (out : list float * list float) : result (list float * list float) :=
  let '(gLong, gLat) := out in
  r ← getitem ra i;
  d ← getitem dec i;
  let _eqgalOutput := pal_eqgal r d in
  Ok (<[i := _eqgalOutput.1]> gLong, <[i := _eqgalOutput.2]> gLat).

Definition equatorialToGalactic (ra dec : list float) : result (list float * list float) :=
  let gLong := zeros (length ra) in
  let gLat := zeros (length ra) in
  for_range (equatorial_to_galactic_step ra dec) 0 (length ra) (gLong, gLat).

(** *** galacticToEquatorial (lines 221-231) *)

Definition galactic_to_equatorial_step (gLong gLat : list float) (i : nat)
    (out : list float * list float) : result (list float * list float) :=
  let '(ra, dec) := out in
  l ← getitem gLong i;
  b ← getitem gLat i;
  let _galeqOutput := pal_galeq l b in
  Ok (<[i := _galeqOutput.1]> ra, <[i := _galeqOutput.2]> dec).

Definition galacticToEquatorial (gLong gLat : list float)
    : result (list float * list float) :=
  let ra := zeros (length gLong) in
  let dec := zeros (length gLong) in
  for_range (galactic_to_equatorial_step gLong gLat) 0 (length ra) (ra, dec).

(** *** equatorialToHorizontal (lines 526-543) *)

Definition equatorialToHorizontal (ra dec mjd : float) : result (float * float) :=
  last ← calcLast mjd (longitude (site self));
  let hourAngle := last - ra in
  let _de2hOutput := pal_de2h hourAngle dec (latitude (site self)) in
  Ok (_de2hOutput.2, _de2hOutput.1).

(** *** paralacticAngle (lines 545-553) *)

Definition math_asin (x : float) : result float := math_1 libm_asin x.

Definition paralacticAngle (az dec : float) : result float :=
  s ← math_sin az;
  c ← math_cos (latitude (site self));
  d ← math_cos dec;
  sinpa ← float_div (s * c) d;
  math_asin sinpa.

(** *** get_skyToFocalPlane (lines 555-599)

    The body of the getter.  [ra_in] and [dec_in] are the columns
    [raObserved] and [decObserved], [metadata] is the dictionary
    [self.obs_metadata.metadata]; the result stands for
    [numpy.array([x_out,y_out])]. *)

(** Lines 591-597, one turn of the loop. *)
Definition sky_to_focal_step (ra_in dec_in trueRA trueDec : list float) (theta : float)
    (i : nat) (out : list float * list float) : result (list float * list float) :=
  let '(x_out, y_out) := out in
  r ← getitem ra_in i;
  d ← getitem dec_in i;
  r0 ← getitem trueRA 0;
  d0 ← getitem trueDec 0;
  '(x, y) ← pal_ds2tp r d r0 d0;
  let x_out := <[i := x * numpy_cos theta - y * numpy_sin theta]> x_out in
  let y_out := <[i := x * numpy_sin theta + y * numpy_cos theta]> y_out in
  Ok (x_out, y_out).

(** Lines 579-583: the tangent point, from two lists of one entry. *)
Definition tangent_point (inRA inDec : list float) : result (list float * list float) :=
  '(x, y) ← applyMeanApparentPlace inRA inDec None None None None
              (db_obj_epoch self) (obs_metadata_mjd self);
  observed ← applyMeanObservedPlace self x y (obs_metadata_mjd self) true false 5000;
  match observed with
  | RaDec trueRA trueDec => Ok (trueRA, trueDec)
  | RaDecAltAz _ _ _ _ => Raise (ValueError "too many values to unpack")
  end.

Definition get_skyToFocalPlane (ra_in dec_in : list float) (metadata : gmap string float)
    : keyed (result (list float * list float)) :=
  let x_out := zeros (length ra_in) in
  let y_out := zeros (length ra_in) in
  match dict_getitem metadata "Opsim_rotskypos" with
  | KeyError k => KeyError k
  | Found theta =>
  match dict_getitem metadata "Unrefracted_RA" with
  | KeyError k => KeyError k
  | Found unrefracted_RA =>
  match dict_getitem metadata "Unrefracted_Dec" with
  | KeyError k => KeyError k
  | Found unrefracted_Dec =>
      let inRA := [unrefracted_RA] in
      let inDec := [unrefracted_Dec] in
      Found ('(trueRA, trueDec) ← tangent_point inRA inDec;
             for_range (sky_to_focal_step ra_in dec_in trueRA trueDec theta)
               0 (length ra_in) (x_out, y_out))
  end end end.

(** The tangent point for the pointing [(RA, Dec)] of the metadata: its mean
    apparent place by [pal.mapqkz], then its observed place by [pal.aopqk]
    with refraction. *)
Definition true_pointing (RA Dec : float) : float * float :=
  let m := pal_mapqkz RA Dec (pal_mappa (db_obj_epoch self) (obs_metadata_mjd self)) in
  observed_place_of m.1 m.2 (observed_params self (obs_metadata_mjd self) true 5000).

(** What the loop stores for one star: the tangent-plane coordinates turned
    by [theta]. *)
Definition rotate (theta : float) (xy : float * float) : float * float :=
  (xy.1 * numpy_cos theta - xy.2 * numpy_sin theta,
   xy.1 * numpy_sin theta + xy.2 * numpy_cos theta).

Definition focal_star (ra_in dec_in : list float) (raz decz theta : float) (i : nat)
    : result (float * float) :=
  r ← getitem ra_in i; d ← getitem dec_in i;
  xy ← pal_ds2tp r d raz decz; Ok (rotate theta xy).

End MoreMethods.

End AstrometryBase.

(** * class AstrometryGalaxies *)

Module AstrometryGalaxies.
Section Methods.

Context `{P : Pal}.
Variable self : Catalog.

(** Lines 606-608 *)
Definition get_trimCoordinates : result (list float * list float) :=
  AstrometryBase.correctCoordinates self None None None None false true.

(** Lines 611-617 *)
Definition get_observedCoordinates : result (list float * list float) :=
  AstrometryBase.correctCoordinates self None None None None true true.

End Methods.
End AstrometryGalaxies.

(** * class AstrometryStars *)

Module AstrometryStars.

(** The four columns [correctStellarCoordinates] reads by name. *)
Record StarColumns : Type := {
  properMotionRa : list float;
  properMotionDec : list float;
  parallax : list float;
  radialVelocity : list float
}.

Section Methods.

Context `{P : Pal}.
Variable self : Catalog.
Variable columns : StarColumns.

(** Lines 625-636 *)
Definition correctStellarCoordinates (includeRefraction : bool)
    : result (list float * list float) :=
  let pr := properMotionRa columns in
  let pd := properMotionDec columns in
  let px := parallax columns in
  let rv := radialVelocity columns in
  AstrometryBase.correctCoordinates self (Some pr) (Some pd) (Some px) (Some rv)
    includeRefraction true.

(** Lines 639-641 *)
Definition get_trimCoordinates : result (list float * list float) :=
  correctStellarCoordinates false.

(** Lines 643-645 *)
Definition get_observedCoordinates : result (list float * list float) :=
  correctStellarCoordinates true.

End Methods.
End AstrometryStars.

(** * The chip-lookup entry points *)

Module CameraUtils.

(** A coordinate argument as the caller built it: a numpy array, or a plain
    Python list ([list(xpList)] in the tests). *)
Inductive coordinates : Type :=
| NdArray (a : list float)
| PyList (a : list float).

Definition is_ndarray (c : coordinates) : bool :=
  match c with NdArray _ => true | PyList _ => false end.

Definition values (c : coordinates) : list float :=
  match c with NdArray a => a | PyList a => a end.

(** [ObservationMetaData(unrefractedRA=.., unrefractedDec=.., mjd=..,
    rotSkyPos=..)]; [mjd] and [rotSkyPos] may be left out. *)
Record ObservationMetaData : Type := {
  unrefractedRA : float;
  unrefractedDec : float;
  mjd : option float;
  rotSkyPos : option float
}.

(** The conditions under which a chip lookup refuses its arguments. *)
Inductive defect : Type :=
| NotNumpyArrays
| LengthMismatch
| NoEpoch
| NoObservationMetaData
| NoMjd
| NoRotSkyPos
| NoCamera.

(** The words by which an error message names what is missing, as the
    assertions of [testExceptions] look for them. *)
Definition field_name (d : defect) : string :=
  match d with
  | NotNumpyArrays => "numpy arrays"
  | LengthMismatch => "Decs"
  | NoEpoch => "epoch"
  | NoObservationMetaData => "ObservationMetaData"
  | NoMjd => "mjd"
  | NoRotSkyPos => "rotSkyPos"
  | NoCamera => "No camera defined"
  end.

Section Lookup.

(** The camera object and the two lookups on well-formed arguments belong to
    the camera geometry library; they are parameters here. *)
Variable Camera : Type.
Variable chipNamesFromPupilCoords :
  list float -> list float -> Camera -> list (option string).
Variable chipNamesFromRaDec :
  list float -> list float -> ObservationMetaData -> float -> Camera ->
  list (option string).

(** Modelled from the spec: the body of [findChipNameFromPupilCoords] is
    missing.  The spec has it raise on a wrong array type, on mismatched array
    lengths and on the absence of the camera, with a message identifying the
    offending parameter; [testExceptions] fixes the exception class
    ([RuntimeError]) and the words the messages contain, and has the array
    type refused even when no camera is passed. *)
Definition findChipNameFromPupilCoords (xPupils yPupils : coordinates)
    (camera : option Camera) : result (list (option string)) :=
  if negb (is_ndarray xPupils && is_ndarray yPupils) then
    Raise (RuntimeError
      "You need to pass numpy arrays of xPupils and yPupils to findChipName")
  else if negb (length (values xPupils) =? length (values yPupils))%nat then
    Raise (RuntimeError
      ("You passed " ++ fmt_d (length (values xPupils)) ++ " xPupils but " ++
       fmt_d (length (values yPupils)) ++ " yPupils to findChipName"))
  else
    match camera with
    | None => Raise (RuntimeError "No camera defined.  Cannot run findChipName.")
    | Some cam => Ok (chipNamesFromPupilCoords (values xPupils) (values yPupils) cam)
    end.

(** Modelled from the spec: the body of [_findChipNameFromRaDec] is missing.
    The spec has it raise on a wrong array type, on mismatched array lengths,
    on missing metadata (epoch, mjd, rotSkyPos) and on the absence of the
    camera or of the ObservationMetaData, naming the missing field;
    [testExceptions] fixes the exception class and the words of each message,
    and has the array type refused even when no camera is passed.  Beyond
    that the order of the checks is the model's: the arrays first (type, then
    lengths), then epoch, ObservationMetaData, mjd, rotSkyPos and the camera. *)
Definition _findChipNameFromRaDec (ra dec : coordinates)
    (obs_metadata : option ObservationMetaData) (epoch : option float)
    (camera : option Camera) : result (list (option string)) :=
  if negb (is_ndarray ra && is_ndarray dec) then
    Raise (RuntimeError "You need to pass numpy arrays of RA and Dec to findChipName")
  else if negb (length (values ra) =? length (values dec))%nat then
    Raise (RuntimeError
      ("You passed " ++ fmt_d (length (values ra)) ++ " RAs but " ++
       fmt_d (length (values dec)) ++ " Decs to findChipName"))
  else
    match epoch, obs_metadata with
    | None, _ => Raise (RuntimeError "You need to pass an epoch into findChipName")
    | Some ep, None =>
        Raise (RuntimeError "You need to pass an ObservationMetaData into findChipName")
    | Some ep, Some obs =>
        match mjd obs, rotSkyPos obs, camera with
        | None, _, _ =>
            Raise (RuntimeError
              "You need to pass an ObservationMetaData with an mjd into findChipName")
        | Some _, None, _ =>
            Raise (RuntimeError
              "You need to pass an ObservationMetaData with a rotSkyPos into findChipName")
        | Some _, Some _, None =>
            Raise (RuntimeError "No camera defined.  Cannot run findChipName.")
        | Some _, Some _, Some cam =>
            Ok (chipNamesFromRaDec (values ra) (values dec) obs ep cam)
        end
    end.

(** Modelled from the spec: the body of [findChipNameFromRaDec] is missing.
    The tests call it with the arguments of [_findChipNameFromRaDec] and
    expect the same errors; it is taken to validate in the same way. *)
Definition findChipNameFromRaDec (ra dec : coordinates)
    (obs_metadata : option ObservationMetaData) (epoch : option float)
    (camera : option Camera) : result (list (option string)) :=
  _findChipNameFromRaDec ra dec obs_metadata epoch camera.

(** The defects of a call to the RA/Dec lookups. *)
Definition has_defect (ra dec : coordinates)
    (obs_metadata : option ObservationMetaData) (epoch : option float)
    (camera : option Camera) (d : defect) : bool :=
  match d with
  | NotNumpyArrays => negb (is_ndarray ra && is_ndarray dec)
  | LengthMismatch => negb (length (values ra) =? length (values dec))%nat
  | NoEpoch => match epoch with None => true | Some _ => false end
  | NoObservationMetaData => match obs_metadata with None => true | Some _ => false end
  | NoMjd => match obs_metadata with
             | Some obs => match mjd obs with None => true | Some _ => false end
             | None => false
             end
  | NoRotSkyPos => match obs_metadata with
                   | Some obs => match rotSkyPos obs with None => true | Some _ => false end
                   | None => false
                   end
  | NoCamera => match camera with None => true | Some _ => false end
  end.

(** The defects the claims call a missing field. *)
Definition is_missing_field (d : defect) : bool :=
  match d with
  | NotNumpyArrays | LengthMismatch => false
  | _ => true
  end.

(** The order in which [_findChipNameFromRaDec] looks for defects. *)
Definition check_order : list defect :=
  [NotNumpyArrays; LengthMismatch; NoEpoch; NoObservationMetaData; NoMjd;
   NoRotSkyPos; NoCamera].

(** The defect [_findChipNameFromRaDec] reports: the first one in that order. *)
Definition first_defect (ra dec : coordinates)
    (obs_metadata : option ObservationMetaData) (epoch : option float)
    (camera : option Camera) : option defect :=
  List.find (has_defect ra dec obs_metadata epoch camera) check_order.

End Lookup.
End CameraUtils.

(** * A stand-in for PAL, and sample data

    Statements about the methods hold for every implementation of the
    interface; the concrete evaluations below run them on this one, whose
    routines are simple arithmetic. *)

Module PalStub.

Definition stub : Pal := {|
  mappa_params := float;
  aoppa_params := float;
  pal_epj := fun mjd => (2000 + (mjd - 51544.5) / 365.25)%float;
  pal_pm := fun r d pr pd px rv ep0 ep1 =>
    ((r + pr * (ep1 - ep0))%float, (d + pd * (ep1 - ep0))%float);
  pal_mappa := fun eq date => (date - eq)%float;
  pal_mapqk := fun r d pr pd px rv prms => ((r + pr + px)%float, (d + pd + rv)%float);
  pal_mapqkz := fun r d prms => (r, d);
  pal_aoppa := fun date dut elongm phim hm xp yp tdk pmb rh wl tlr => (pmb + rh)%float;
  pal_aopqk := fun r d prms =>
    {| aop_0 := 0; aop_1 := 0; aop_2 := (r / 2)%float;
       aop_3 := (d + prms)%float; aop_4 := (r + prms)%float |};
  pal_de2h := fun ha d phi => ((ha + phi)%float, (d + phi)%float);
  pal_gmsta := fun date ut => 1%float;
  numpy_cos := fun x => 1%float
|}.

Definition site0 : Site := {|
  longitude := 0; latitude := 0; height := 0; xPolar := 0; yPolar := 0;
  meanTemperature := 0; meanPressure := 1; meanHumidity := 0; lapseRate := 0
|}.

Definition catalog0 : Catalog := {|
  site := site0;
  obs_metadata_mjd := 51544.5;
  db_obj_epoch := 2000;
  raJ2000 := [1; 2]%float;
  decJ2000 := [0.5; 0.25]%float
|}.

(** Six one-star arrays at locations 1 to 6, in the order of the arguments of
    [applyProperMotion]; the parallax is zero. *)
Definition heap0 : heap :=
  {[ 1%positive := [1%float]; 2%positive := [0.5%float]; 3%positive := [0%float];
     4%positive := [0%float]; 5%positive := [0%float]; 6%positive := [0%float] ]}.

(** Two stars: the first moves in right ascension, the second has proper
    motions within [EPSILON]. *)
Definition heap1 : heap :=
  {[ 1%positive := [1%float; 2%float];
     2%positive := [0.5%float; 0.25%float];
     3%positive := [0x1p-10%float; 0%float];
     4%positive := [0%float; 0x1p-40%float];
     5%positive := [0%float; 1%float];
     6%positive := [0%float; 30%float] ]}.

(** [ObservationMetaData(unrefractedRA=25.0, unrefractedDec=112.0,
    mjd=42351.0, rotSkyPos=35.0)] of [testExceptions], and a camera that finds
    no chip. *)
Definition obs0 : CameraUtils.ObservationMetaData := {|
  CameraUtils.unrefractedRA := 25;
  CameraUtils.unrefractedDec := 112;
  CameraUtils.mjd := Some 42351%float;
  CameraUtils.rotSkyPos := Some 35%float
|}.

Definition no_chips_pupil (x y : list float) (cam : unit) : list (option string) :=
  (fun _ => None) <$> x.

Definition no_chips_ra_dec (ra dec : list float) (obs : CameraUtils.ObservationMetaData)
    (epoch : float) (cam : unit) : list (option string) :=
  (fun _ => None) <$> ra.

End PalStub.

(** A stand-in for the further routines, and more sample data. *)

Module PalExtStub.

Definition stub_ext : PalExt := {|
  pal_eqgal := fun r d => ((r + 1)%float, (d * 2)%float);
  pal_galeq := fun l b => ((l - 1)%float, (b / 2)%float);
  pal_ds2tp := fun r d raz decz =>
    if (r <? 0)%float then Raise (ValueError "star too far from axis")
    else Ok ((r - raz)%float, (d - decz)%float);
  numpy_sin := fun x => 0%float;
  numpy_arccos := fun x => (1 - x)%float;
  libm_sin := fun x => x;
  libm_cos := fun x => (1 - x)%float;
  libm_asin := fun x => (x / 2)%float
|}.

(** The metadata of a pointing. *)
Definition metadata0 : gmap string float :=
  {[ "Opsim_rotskypos" := 0.5%float; "Unrefracted_RA" := 1%float;
     "Unrefracted_Dec" := 0.25%float ]}.

(** A pointing whose rotation angle was not recorded. *)
Definition metadata1 : gmap string float :=
  {[ "Unrefracted_RA" := 1%float; "Unrefracted_Dec" := 0.25%float ]}.

(** Two stars at rest, and two stars of which the first moves. *)
Definition columns0 : AstrometryStars.StarColumns := {|
  AstrometryStars.properMotionRa := [0; 0x1p-40]%float;
  AstrometryStars.properMotionDec := [0; 0]%float;
  AstrometryStars.parallax := [0x1p-31; 0]%float;
  AstrometryStars.radialVelocity := [0; nan]%float
|}.

(** The six arrays of [applyProperMotion] at locations 1 to 6 for two stars,
    with a [dec] array of one entry. *)
Definition heap2 : heap :=
  {[ 1%positive := [1%float; 2%float];
     2%positive := [0.5%float];
     3%positive := [0%float; 0%float];
     4%positive := [0%float; 0%float];
     5%positive := [0%float; 1%float];
     6%positive := [0%float; 0%float] ]}.

(** Two stars, the first with proper motions that are not numbers. *)
Definition heap3 : heap :=
  {[ 1%positive := [1%float; 2%float];
     2%positive := [0.5%float; 0.25%float];
     3%positive := [nan; 0x1p-10%float];
     4%positive := [nan; 0%float];
     5%positive := [1%float; 1%float];
     6%positive := [0%float; 0%float] ]}.

End PalExtStub.

(** * Properties *)

Open Scope list_scope.

(** ** Loops *)

Section Loops.

Context {A : Type}.

Lemma getitem_Ok (a : list A) (i : nat) (x : A) : a !! i = Some x -> getitem a i = Ok x.
Proof. intros H. unfold getitem. now rewrite H. Qed.

Lemma getitem_Raise (a : list A) (i : nat) : length a <= i -> getitem a i = Raise IndexError.
Proof. intros H. unfold getitem. now rewrite (lookup_ge_None_2 a i H). Qed.

Lemma getitem_lt (a : list A) (i : nat) : i < length a -> exists x, getitem a i = Ok x.
Proof.
  intros H. destruct (lookup_lt_is_Some_2 a i H) as [x Hx].
  exists x. now apply getitem_Ok.
Qed.

Lemma collect_length (g : nat -> result A) (start count : nat) (vs : list A) :
  collect g start count = Ok vs -> length vs = count.
Proof.
  revert start vs. induction count as [|k IH]; intros start vs; simpl.
  - intros H. now inversion H.
  - destruct (g start) as [v|e]; simpl; [|discriminate].
    destruct (collect g (S start) k) as [ws|e] eqn:E; simpl; [|discriminate].
    intros H. inversion H. simpl. f_equal. now apply (IH (S start)).
Qed.

Lemma collect_lookup (g : nat -> result A) (start count : nat) (vs : list A) (i : nat) :
  collect g start count = Ok vs -> i < count ->
  exists v, g (start + i) = Ok v /\ vs !! i = Some v.
Proof.
  revert start vs i. induction count as [|k IH]; intros start vs i; simpl.
  - lia.
  - destruct (g start) as [v|e] eqn:Ev; simpl; [|discriminate].
    destruct (collect g (S start) k) as [ws|e] eqn:E; simpl; [|discriminate].
    intros H Hi. inversion H; subst vs. destruct i as [|j].
    + exists v. now rewrite Nat.add_0_r.
    + destruct (IH (S start) ws j E ltac:(lia)) as [w [Hw Hl]].
      exists w. split; [|exact Hl]. now replace (start + S j) with (S start + j) by lia.
Qed.

Lemma collect_total (g : nat -> result A) (start count : nat) :
  (forall i, start <= i < start + count -> is_ok (g i) = true) ->
  exists vs, collect g start count = Ok vs.
Proof.
  revert start. induction count as [|k IH]; intros start Hg; simpl.
  - now exists [].
  - assert (Hs : is_ok (g start) = true) by (apply Hg; lia).
    destruct (g start) as [v|e]; [|discriminate]. simpl.
    destruct (IH (S start)) as [ws Hws]; [intros i Hi; apply Hg; lia|].
    rewrite Hws. simpl. now exists (v :: ws).
Qed.

(** The first failing index decides the exception of [collect]. *)
Lemma collect_Raise (g : nat -> result A) (start count : nat) (j : nat) (e : exn) :
  start <= j < start + count ->
  (forall i, start <= i < j -> is_ok (g i) = true) ->
  g j = Raise e ->
  collect g start count = Raise e.
Proof.
  revert start. induction count as [|k IH]; intros start Hj Hok He; simpl; [lia|].
  destruct (decide (start = j)) as [->|Hne].
  - now rewrite He.
  - assert (Hs : is_ok (g start) = true) by (apply Hok; lia).
    destruct (g start) as [v|e']; [|discriminate]. simpl.
    rewrite (IH (S start)); [reflexivity|lia| |exact He].
    intros i Hi. apply Hok. lia.
Qed.

(** A filling loop over two arrays of [start + count] entries leaves the
    first [start] entries as they are and stores the collected pairs after
    them; it raises what collecting the pairs raises. *)
Lemma for_range_fill (g : nat -> result (A * A)) (start count : nat) (a b : list A) :
  length a = start + count -> length b = start + count ->
  for_range (fill_step g) start count (a, b) =
  vs ← collect g start count; Ok (take start a ++ vs.*1, take start b ++ vs.*2).
Proof.
  revert start a b. induction count as [|k IH]; intros start a b Ha Hb; simpl.
  - rewrite !app_nil_r, !firstn_all2 by lia. reflexivity.
  - replace (fill_step g start (a, b))
      with (g start ≫= λ v, Ok (<[start := v.1]> a, <[start := v.2]> b)) by reflexivity.
    destruct (g start) as [v|e]; simpl; [|reflexivity].
    rewrite IH by (rewrite length_insert; lia).
    destruct (collect g (S start) k) as [vs|e]; simpl; [|reflexivity].
    rewrite (take_S_r (<[start := v.1]> a) start (v.1))
      by (apply list_lookup_insert_eq; lia).
    rewrite (take_S_r (<[start := v.2]> b) start (v.2))
      by (apply list_lookup_insert_eq; lia).
    rewrite !take_insert_ge by lia.
    now rewrite <- !app_assoc.
Qed.

Lemma for_range_ext {S : Type} (body body' : nat -> S -> result S) (start count : nat) (s : S) :
  (forall i s, start <= i < start + count -> body i s = body' i s) ->
  for_range body start count s = for_range body' start count s.
Proof.
  revert start s. induction count as [|k IH]; intros start s Hb; simpl; [reflexivity|].
  rewrite (Hb start s) by lia. destruct (body' start s) as [s'|e]; simpl; [|reflexivity].
  apply IH. intros i s0 Hi. apply Hb. lia.
Qed.

End Loops.

Section FillLoops.

Context {A : Type}.

(** A filling loop whose turns all succeed returns two arrays of the same
    length that hold, at each index, what the turn computed. *)
Lemma for_range_fill_Ok (g : nat -> result (A * A)) (n : nat) (a0 b0 : list A) :
  length a0 = n -> length b0 = n ->
  (forall i, i < n -> is_ok (g i) = true) ->
  exists a b,
    for_range (fill_step g) 0 n (a0, b0) = Ok (a, b) /\
    length a = n /\ length b = n /\
    forall i v, i < n -> g i = Ok v -> a !! i = Some (v.1) /\ b !! i = Some (v.2).
Proof.
  intros Ha Hb Hg.
  destruct (collect_total g 0 n) as [vs Hvs]; [intros i Hi; apply Hg; lia|].
  exists (vs.*1), (vs.*2).
  rewrite for_range_fill by (simpl; lia). rewrite Hvs. simpl.
  pose proof (collect_length _ _ _ _ Hvs) as Hlen.
  repeat split; try (now rewrite length_fmap).
  - destruct (collect_lookup _ _ _ _ i Hvs H) as [w [Hw Hl]].
    simpl in Hw. rewrite Hw in H0. inversion H0; subst w.
    rewrite list_lookup_fmap, Hl. reflexivity.
  - destruct (collect_lookup _ _ _ _ i Hvs H) as [w [Hw Hl]].
    simpl in Hw. rewrite Hw in H0. inversion H0; subst w.
    rewrite list_lookup_fmap, Hl. reflexivity.
Qed.

(** A filling loop raises the exception of its first failing turn. *)
Lemma for_range_fill_Raise (g : nat -> result (A * A)) (n j : nat) (e : exn)
    (a0 b0 : list A) :
  length a0 = n -> length b0 = n -> j < n ->
  (forall i, i < j -> is_ok (g i) = true) ->
  g j = Raise e ->
  for_range (fill_step g) 0 n (a0, b0) = Raise e.
Proof.
  intros Ha Hb Hj Hok He.
  rewrite for_range_fill by (simpl; lia).
  rewrite (collect_Raise g 0 n j e); [reflexivity|lia| |exact He].
  intros i Hi. apply Hok. lia.
Qed.

End FillLoops.

Lemma length_zeros (n : nat) : length (zeros n) = n.
Proof. apply length_replicate. Qed.

Lemma lookup_zeros (n i : nat) : i < n -> zeros n !! i = Some 0%float.
Proof. intros H. now apply lookup_replicate_2. Qed.

(** ** Binary64 arithmetic

    What the statements about [calcLast] and [applyProperMotion] need of
    [SpecFloat]: the number of digits of a mantissa, the right shift that
    precedes rounding, an upper bound on a rounded value, the sum of a
    negative and a positive number, the order of valid numbers, and the
    remainder. *)


Section Digits.

#[local] Open Scope Z_scope.

Lemma digits2_pos_bounds (m : positive) :
  2 ^ (Z.pos (digits2_pos m) - 1) <= Z.pos m < 2 ^ Z.pos (digits2_pos m).
Proof.
  induction m as [p IH|p IH|]; simpl digits2_pos.
  - rewrite Pos2Z.inj_succ.
    replace (Z.succ (Z.pos (digits2_pos p)) - 1) with (Z.succ (Z.pos (digits2_pos p) - 1)) by lia.
    rewrite !Z.pow_succ_r by lia.
    generalize dependent (2 ^ (Z.pos (digits2_pos p) - 1)).
    generalize (2 ^ Z.pos (digits2_pos p)). intros; lia.
  - rewrite Pos2Z.inj_succ.
    replace (Z.succ (Z.pos (digits2_pos p)) - 1) with (Z.succ (Z.pos (digits2_pos p) - 1)) by lia.
    rewrite !Z.pow_succ_r by lia.
    generalize dependent (2 ^ (Z.pos (digits2_pos p) - 1)).
    generalize (2 ^ Z.pos (digits2_pos p)). intros; lia.
  - simpl. lia.
Qed.

Lemma digits2_pos_le (m : positive) (d : Z) :
  Z.pos m < 2 ^ d -> Z.pos (digits2_pos m) <= d.
Proof.
  intros H. destruct (Z.le_gt_cases (Z.pos (digits2_pos m)) d) as [Hle|Hgt]; [exact Hle|].
  exfalso. pose proof (digits2_pos_bounds m) as [Hlo _].
  assert (2 ^ d <= 2 ^ (Z.pos (digits2_pos m) - 1)).
  { destruct (Z.lt_ge_cases d 0) as [Hneg|Hpos].
    - rewrite (Z.pow_neg_r 2 d Hneg). apply Z.pow_nonneg. lia.
    - apply Z.pow_le_mono_r; lia. }
  lia.
Qed.

Lemma digits2_pos_unique (m : positive) (d : Z) :
  2 ^ (d - 1) <= Z.pos m < 2 ^ d -> Z.pos (digits2_pos m) = d.
Proof.
  intros [Hlo Hhi]. pose proof (digits2_pos_bounds m) as [Hlo' Hhi'].
  assert (Hd : 0 < d).
  { destruct (Z.lt_ge_cases 0 d); [assumption|].
    destruct (Z.eq_dec d 0) as [->|]; [simpl in Hhi; lia|].
    rewrite (Z.pow_neg_r 2 d) in Hhi by lia. lia. }
  apply Z.le_antisymm.
  - now apply digits2_pos_le.
  - destruct (Z.le_gt_cases d (Z.pos (digits2_pos m))) as [Hle|Hgt]; [exact Hle|].
    exfalso.
    assert (2 ^ Z.pos (digits2_pos m) <= 2 ^ (d - 1)) by (apply Z.pow_le_mono_r; lia).
    lia.
Qed.

Lemma pos_iter_xO (m p : positive) : Z.pos (Pos.iter xO m p) = Z.pos m * 2 ^ Z.pos p.
Proof.
  induction p as [|p IH] using Pos.peano_ind.
  - simpl. lia.
  - rewrite Pos.iter_succ, Pos2Z.inj_succ, Z.pow_succ_r by lia.
    change (Z.pos (Pos.iter xO m p)~0) with (2 * Z.pos (Pos.iter xO m p)).
    rewrite IH. ring.
Qed.

End Digits.


Section Shifts.

#[local] Open Scope Z_scope.

Lemma shr_1_m (mrs : shr_record) :
  0 <= shr_m mrs -> shr_m (shr_1 mrs) = shr_m mrs / 2 /\ 0 <= shr_m (shr_1 mrs).
Proof.
  destruct mrs as [m r s]. simpl. intros Hm.
  destruct m as [|q|q]; [split; [reflexivity|simpl; lia]| |lia].
  destruct q as [p|p|]; simpl.
  - split; [|lia]. apply (Z.div_unique (Z.pos p~1) 2 (Z.pos p) 1); lia.
  - split; [|lia]. apply (Z.div_unique (Z.pos p~0) 2 (Z.pos p) 0); lia.
  - split; [reflexivity|lia].
Qed.

Lemma iter_shr_1_m (p : positive) (mrs : shr_record) :
  0 <= shr_m mrs ->
  shr_m (SpecFloat.iter_pos shr_1 p mrs) = shr_m mrs / 2 ^ Z.pos p /\
  0 <= shr_m (SpecFloat.iter_pos shr_1 p mrs).
Proof.
  revert mrs. induction p as [p IH|p IH|]; intros mrs Hm; simpl SpecFloat.iter_pos.
  - destruct (shr_1_m mrs Hm) as [E1 P1].
    destruct (IH _ P1) as [E2 P2]. destruct (IH _ P2) as [E3 P3].
    split; [|exact P3]. rewrite E3, E2, E1.
    rewrite !Z.div_div by (try apply Z.pow_pos_nonneg; lia).
    f_equal. change (Z.pos p~1) with (2 * Z.pos p + 1).
    rewrite Z.pow_add_r, Z.pow_mul_r by lia.
    change (2 ^ 2) with 4. replace (4 ^ Z.pos p) with (2 ^ Z.pos p * 2 ^ Z.pos p).
    + ring.
    + rewrite <- Z.pow_mul_l. reflexivity.
  - destruct (IH _ Hm) as [E2 P2]. destruct (IH _ P2) as [E3 P3].
    split; [|exact P3]. rewrite E3, E2.
    rewrite !Z.div_div by (try apply Z.pow_pos_nonneg; lia).
    f_equal. change (Z.pos p~0) with (2 * Z.pos p).
    rewrite Z.pow_mul_r by lia.
    change (2 ^ 2) with 4. rewrite <- Z.pow_mul_l. reflexivity.
  - destruct (shr_1_m mrs Hm) as [E1 P1]. split; [|exact P1].
    rewrite E1. reflexivity.
Qed.

Lemma shr_m_of_loc (m : Z) (l : location) : shr_m (shr_record_of_loc m l) = m.
Proof. destruct l as [|[ | | ]]; reflexivity. Qed.

Lemma shr_fexp_spec (m e : Z) (l : location) :
  0 <= m ->
  shr_m (fst (shr_fexp prec emax m e l)) =
    m / 2 ^ Z.max 0 (fexp prec emax (Zdigits2 m + e) - e) /\
  snd (shr_fexp prec emax m e l) = e + Z.max 0 (fexp prec emax (Zdigits2 m + e) - e).
Proof.
  intros Hm. unfold shr_fexp, shr.
  destruct (fexp prec emax (Zdigits2 m + e) - e) as [|p|p] eqn:E; simpl fst; simpl snd.
  - rewrite shr_m_of_loc. simpl. rewrite Z.div_1_r. lia.
  - destruct (iter_shr_1_m p (shr_record_of_loc m l)) as [E1 _];
      [rewrite shr_m_of_loc; exact Hm|].
    rewrite E1, shr_m_of_loc.
    rewrite Z.max_r by lia. split; reflexivity.
  - rewrite shr_m_of_loc. rewrite Z.max_l by lia. simpl. rewrite Z.div_1_r. lia.
Qed.

Lemma round_nearest_even_bounds (m : Z) (l : location) :
  m <= round_nearest_even m l <= m + 1.
Proof.
  destruct l as [|[ | | ]]; simpl; try lia. destruct (Z.even m); lia.
Qed.

End Shifts.


Section Rounding.

#[local] Open Scope Z_scope.

Lemma pow2_pos (k : Z) : 0 <= k -> 0 < 2 ^ k.
Proof. intros. apply Z.pow_pos_nonneg; lia. Qed.

Lemma pow2_split (a b : Z) : 0 <= a -> 0 <= b -> 2 ^ (a + b) = 2 ^ a * 2 ^ b.
Proof. intros. apply Z.pow_add_r; lia. Qed.

Lemma fexp_unfold (x : Z) : fexp prec emax x = Z.max (x - 53) (-1074).
Proof. reflexivity. Qed.

(** Rounding a positive value that lies below a representable bound stays
    at or below the bound. *)
Lemma binary_round_aux_le (mx ex mb eb : Z) :
  0 < mx -> -1074 <= ex <= eb -> eb + 53 <= 971 -> 0 < mb < 2 ^ 53 ->
  mx * 2 ^ (ex + 1074) < mb * 2 ^ (eb + 1074) ->
  match binary_round_aux prec emax false mx ex loc_Exact with
  | S754_zero s => s = false
  | S754_finite s m e =>
      s = false /\ -1074 <= e /\ Z.pos m * 2 ^ (e + 1074) <= mb * 2 ^ (eb + 1074)
  | _ => False
  end.
Proof.
  intros Hmx Hex Heb Hmb Hlt.
  unfold binary_round_aux.
  destruct (shr_fexp_spec mx ex loc_Exact ltac:(lia)) as [Hm1 He1].
  destruct (shr_fexp prec emax mx ex loc_Exact) as [mrs1 e1]. simpl in Hm1, He1.
  set (n1 := Z.max 0 (fexp prec emax (Zdigits2 mx + ex) - ex)) in *.
  pose proof (round_nearest_even_bounds (shr_m mrs1) (loc_of_shr_record mrs1)) as Hrne.
  set (m2 := round_nearest_even (shr_m mrs1) (loc_of_shr_record mrs1)) in *.
  assert (Hn1 : 0 <= n1) by (unfold n1; lia).
  assert (Hm1pos : 0 <= shr_m mrs1)
    by (rewrite Hm1; apply Z.div_pos; [lia|now apply pow2_pos]).
  destruct (shr_fexp_spec m2 e1 loc_Exact ltac:(lia)) as [Hm3 He2].
  destruct (shr_fexp prec emax m2 e1 loc_Exact) as [mrs2 e2]. simpl in Hm3, He2.
  set (n2 := Z.max 0 (fexp prec emax (Zdigits2 m2 + e1) - e1)) in *.
  assert (Hn2 : 0 <= n2) by (unfold n2; lia).
  (* the exponent after the first shift does not pass that of the bound *)
  assert (Hd : Zdigits2 mx + ex - 53 <= eb).
  { destruct mx as [|p|p]; try lia. simpl Zdigits2.
    assert (Z.pos (digits2_pos p) <= 53 + eb - ex); [|lia].
    apply digits2_pos_le.
    apply (Z.mul_lt_mono_pos_r (2 ^ (ex + 1074))); [apply pow2_pos; lia|].
    rewrite <- (pow2_split (53 + eb - ex) (ex + 1074)) by lia.
    replace (53 + eb - ex + (ex + 1074)) with (53 + (eb + 1074)) by lia.
    rewrite (pow2_split 53 (eb + 1074)) by lia.
    apply (Z.lt_trans _ _ _ Hlt).
    apply Z.mul_lt_mono_pos_r; [apply pow2_pos; lia|lia]. }
  assert (He1b : e1 <= eb).
  { rewrite He1. unfold n1. rewrite fexp_unfold. lia. }
  (* the scales *)
  assert (HP1 : 0 < 2 ^ (ex + 1074)) by (apply pow2_pos; lia).
  assert (HN1 : 0 < 2 ^ n1) by now apply pow2_pos.
  assert (HN2 : 0 < 2 ^ n2) by now apply pow2_pos.
  assert (HQ : 0 < 2 ^ (eb - e1)) by (apply pow2_pos; lia).
  assert (Ee1 : 2 ^ (e1 + 1074) = 2 ^ n1 * 2 ^ (ex + 1074)).
  { rewrite <- (pow2_split n1 (ex + 1074)) by lia. f_equal. lia. }
  assert (Eeb : 2 ^ (eb + 1074) = 2 ^ (eb - e1) * 2 ^ (e1 + 1074)).
  { rewrite <- (pow2_split (eb - e1) (e1 + 1074)) by lia. f_equal. lia. }
  assert (Ee2 : 2 ^ (e2 + 1074) = 2 ^ n2 * 2 ^ (e1 + 1074)).
  { rewrite <- (pow2_split n2 (e1 + 1074)) by lia. f_equal. lia. }
  assert (Hc : shr_m mrs1 + 1 <= mb * 2 ^ (eb - e1)).
  { assert (shr_m mrs1 < mb * 2 ^ (eb - e1)); [|lia].
    rewrite Hm1. apply Z.div_lt_upper_bound; [exact HN1|].
    apply (Z.mul_lt_mono_pos_r (2 ^ (ex + 1074))); [exact HP1|].
    rewrite Eeb, Ee1 in Hlt.
    replace (2 ^ n1 * (mb * 2 ^ (eb - e1)) * 2 ^ (ex + 1074))
      with (mb * (2 ^ (eb - e1) * (2 ^ n1 * 2 ^ (ex + 1074)))) by ring.
    exact Hlt. }
  assert (Hfloor : shr_m mrs2 * 2 ^ n2 <= m2).
  { rewrite Hm3. rewrite Z.mul_comm. apply Z.mul_div_le. exact HN2. }
  assert (Hm3pos : 0 <= shr_m mrs2)
    by (rewrite Hm3; apply Z.div_pos; [lia|exact HN2]).
  assert (Hbound : shr_m mrs2 * 2 ^ (e2 + 1074) <= mb * 2 ^ (eb + 1074)).
  { rewrite Ee2, Eeb.
    assert (0 < 2 ^ (e1 + 1074)) by (apply pow2_pos; lia).
    apply Z.le_trans with (m2 * 2 ^ (e1 + 1074)).
    - rewrite Z.mul_assoc. apply Z.mul_le_mono_nonneg_r; lia.
    - rewrite Z.mul_assoc. apply Z.mul_le_mono_nonneg_r; lia. }
  destruct (shr_m mrs2) as [|m|m] eqn:Em; [reflexivity| |lia].
  assert (He2b : e2 < eb + 53).
  { assert (2 ^ (e2 + 1074) < 2 ^ (eb + 53 + 1074)).
    - apply Z.le_lt_trans with (Z.pos m * 2 ^ (e2 + 1074)).
      + assert (0 < 2 ^ (e2 + 1074)) by (apply pow2_pos; lia). nia.
      + apply (Z.le_lt_trans _ _ _ Hbound).
        replace (eb + 53 + 1074) with (53 + (eb + 1074)) by lia.
        rewrite (pow2_split 53 (eb + 1074)) by lia.
        apply Z.mul_lt_mono_pos_r; [apply pow2_pos; lia|lia].
    - apply Z.pow_lt_mono_r_iff in H; lia. }
  replace (e2 <=? emax - prec) with true
    by (symmetry; apply Z.leb_le; unfold emax, prec; lia).
  repeat split; [lia|exact Hbound].
Qed.

End Rounding.


Section Addition.

#[local] Open Scope Z_scope.

Lemma shl_align_spec (m : positive) (e e' : Z) :
  snd (shl_align m e e') = Z.min e e' /\
  Z.pos (fst (shl_align m e e')) = Z.pos m * 2 ^ (e - Z.min e e').
Proof.
  unfold shl_align. destruct (e' - e) as [|d|d] eqn:E; simpl fst; simpl snd.
  - rewrite Z.min_l by lia. rewrite Z.sub_diag. simpl. lia.
  - rewrite Z.min_l by lia. rewrite Z.sub_diag. simpl. lia.
  - rewrite Z.min_r by lia. split; [reflexivity|].
    rewrite pos_iter_xO. f_equal. f_equal. lia.
Qed.

Lemma binary_round_le (v : positive) (e mb eb : Z) :
  -1074 <= e <= eb -> eb + 53 <= 971 -> 0 < mb < 2 ^ 53 ->
  Z.pos v * 2 ^ (e + 1074) < mb * 2 ^ (eb + 1074) ->
  match binary_round prec emax false v e with
  | S754_zero s => s = false
  | S754_finite s m e' =>
      s = false /\ -1074 <= e' /\ Z.pos m * 2 ^ (e' + 1074) <= mb * 2 ^ (eb + 1074)
  | _ => False
  end.
Proof.
  intros He Heb Hmb Hlt. unfold binary_round.
  destruct (shl_align_spec v e (fexp prec emax (Z.pos (digits2_pos v) + e))) as [Hez Hmz].
  destruct (shl_align v e _) as [mz ez]. cbn [fst snd] in Hez, Hmz.
  rewrite fexp_unfold in Hez, Hmz.
  apply binary_round_aux_le; try assumption; try lia.
  rewrite Hmz, Hez. rewrite <- Z.mul_assoc.
  rewrite <- pow2_split by lia.
  replace (e - Z.min e (Z.max (Z.pos (digits2_pos v) + e - 53) (-1074)) +
           (Z.min e (Z.max (Z.pos (digits2_pos v) + e - 53) (-1074)) + 1074))
    with (e + 1074) by lia.
  exact Hlt.
Qed.

(** A negative number of smaller magnitude added to a positive one gives a
    number between zero and the positive one. *)
Lemma SFadd_neg_le (m : positive) (e : Z) (my : positive) (ey : Z) :
  -1074 <= e <= ey -> ey + 53 <= 971 -> Z.pos my < 2 ^ 53 ->
  Z.pos m * 2 ^ (e + 1074) < Z.pos my * 2 ^ (ey + 1074) ->
  match SFadd prec emax (S754_finite true m e) (S754_finite false my ey) with
  | S754_zero s => s = false
  | S754_finite s m' e' =>
      s = false /\ -1074 <= e' /\
      Z.pos m' * 2 ^ (e' + 1074) <= Z.pos my * 2 ^ (ey + 1074)
  | _ => False
  end.
Proof.
  intros He Hey Hmy Hlt. unfold SFadd.
  destruct (shl_align_spec m e (Z.min e ey)) as [_ E1].
  destruct (shl_align_spec my ey (Z.min e ey)) as [_ E2].
  rewrite E1, E2. unfold cond_Zopp.
  replace (Z.min e (Z.min e ey)) with e by lia.
  replace (Z.min ey (Z.min e ey)) with e by lia.
  replace (Z.min e ey) with e by lia.
  rewrite Z.sub_diag, Z.mul_1_r.
  assert (Hs : 2 ^ (ey + 1074) = 2 ^ (ey - e) * 2 ^ (e + 1074)).
  { rewrite <- (pow2_split (ey - e) (e + 1074)) by lia. f_equal. lia. }
  assert (HP : 0 < 2 ^ (e + 1074)) by (apply pow2_pos; lia).
  assert (HQ : 0 < 2 ^ (ey - e)) by (apply pow2_pos; lia).
  rewrite Hs in Hlt.
  assert (Hv : 0 < - Z.pos m + Z.pos my * 2 ^ (ey - e)) by nia.
  destruct (- Z.pos m + Z.pos my * 2 ^ (ey - e)) as [|v|v] eqn:Ev; try lia.
  unfold binary_normalize.
  apply binary_round_le; lia.
Qed.

End Addition.

Section Order.

#[local] Open Scope Z_scope.

Lemma valid_finite (s : bool) (m : positive) (e : Z) :
  valid_binary (S754_finite s m e) = true ->
  -1074 <= e <= 971 /\ Z.pos m < 2 ^ 53 /\ (2 ^ 52 <= Z.pos m \/ e = -1074).
Proof.
  unfold SpecFloat.valid_binary, bounded, canonical_mantissa. rewrite fexp_unfold.
  intros H. apply andb_true_iff in H. destruct H as [Hc Hb].
  apply Z.eqb_eq in Hc. apply Z.leb_le in Hb. unfold emax, prec in Hb.
  pose proof (digits2_pos_bounds m) as [Hlo Hhi].
  assert (Hd : Z.pos (digits2_pos m) <= 53) by lia.
  split; [lia|]. split.
  - apply Z.lt_le_trans with (2 ^ Z.pos (digits2_pos m)); [exact Hhi|].
    apply Z.pow_le_mono_r; lia.
  - destruct (Z.eq_dec e (-1074)) as [->|Hne]; [now right|left].
    replace (Z.pos (digits2_pos m)) with 53 in Hlo by lia. exact Hlo.
Qed.

(** On valid positive numbers the comparison of [SpecFloat] is the
    comparison of the values. *)
Lemma SFcompare_finite_pos (m1 : positive) (e1 : Z) (m2 : positive) (e2 : Z) :
  valid_binary (S754_finite false m1 e1) = true ->
  valid_binary (S754_finite false m2 e2) = true ->
  SFcompare (S754_finite false m1 e1) (S754_finite false m2 e2) =
  Some (Z.pos m1 * 2 ^ (e1 + 1074) ?= Z.pos m2 * 2 ^ (e2 + 1074)).
Proof.
  intros V1 V2. apply valid_finite in V1, V2.
  destruct V1 as (He1 & Hm1 & Hn1), V2 as (He2 & Hm2 & Hn2).
  unfold SFcompare. f_equal.
  destruct (Z.compare_spec e1 e2) as [Heq|Hlt|Hgt].
  - subst e2. change (Pos.compare_cont Eq m1 m2) with (Z.pos m1 ?= Z.pos m2).
    assert (0 < 2 ^ (e1 + 1074)) by (apply pow2_pos; lia).
    apply Zmult_compare_compat_r. lia.
  - symmetry. apply Z.compare_lt_iff.
    assert (Hs : 2 ^ (e2 + 1074) = 2 ^ (e2 - e1) * 2 ^ (e1 + 1074)).
    { rewrite <- (pow2_split (e2 - e1) (e1 + 1074)) by lia. f_equal. lia. }
    rewrite Hs.
    assert (HP : 0 < 2 ^ (e1 + 1074)) by (apply pow2_pos; lia).
    assert (HQ : 2 <= 2 ^ (e2 - e1)).
    { change 2 with (2 ^ 1) at 1. apply Z.pow_le_mono_r; lia. }
    assert (2 ^ 52 <= Z.pos m2) by lia.
    change (2 ^ 53) with (2 * 2 ^ 52) in Hm1. nia.
  - symmetry. apply Z.compare_gt_iff.
    assert (Hs : 2 ^ (e1 + 1074) = 2 ^ (e1 - e2) * 2 ^ (e2 + 1074)).
    { rewrite <- (pow2_split (e1 - e2) (e2 + 1074)) by lia. f_equal. lia. }
    rewrite Hs.
    assert (HP : 0 < 2 ^ (e2 + 1074)) by (apply pow2_pos; lia).
    assert (HQ : 2 <= 2 ^ (e1 - e2)).
    { change 2 with (2 ^ 1) at 1. apply Z.pow_le_mono_r; lia. }
    assert (2 ^ 52 <= Z.pos m1) by lia.
    change (2 ^ 53) with (2 * 2 ^ 52) in Hm2. nia.
Qed.

End Order.


Section Remainder.

#[local] Open Scope Z_scope.

Lemma SFnormal_spec (s : bool) (r : positive) (e : Z) :
  -1074 <= e <= 971 -> Z.pos r < 2 ^ 53 ->
  exists m' e',
    SFnormal s r e = S754_finite s m' e' /\
    valid_binary (S754_finite s m' e') = true /\
    -1074 <= e' <= e /\
    Z.pos m' * 2 ^ (e' + 1074) = Z.pos r * 2 ^ (e + 1074).
Proof.
  intros He Hr. unfold SFnormal, SFcanonical, canonical_exponent.
  rewrite fexp_unfold.
  pose proof (digits2_pos_bounds r) as [Hlo Hhi].
  assert (Hd : Z.pos (digits2_pos r) <= 53) by now apply digits2_pos_le.
  set (d := Z.pos (digits2_pos r)) in *.
  destruct (Z.ltb_spec (Z.max (d + e - 53) (-1074)) e) as [Hlt|Hge].
  - set (ce := Z.max (d + e - 53) (-1074)) in *.
    exists (Pos.iter xO r (Z.to_pos (e - ce))), ce.
    assert (Hsh : Z.pos (Pos.iter xO r (Z.to_pos (e - ce))) = Z.pos r * 2 ^ (e - ce)).
    { rewrite pos_iter_xO. now rewrite Z2Pos.id by lia. }
    assert (Hdig : Z.pos (digits2_pos (Pos.iter xO r (Z.to_pos (e - ce)))) = d + (e - ce)).
    { apply digits2_pos_unique. rewrite Hsh.
      assert (0 < 2 ^ (e - ce)) by (apply pow2_pos; lia).
      replace (d + (e - ce) - 1) with ((d - 1) + (e - ce)) by lia.
      rewrite !pow2_split by (subst d; lia). nia. }
    split; [reflexivity|]. split; [|split; [lia|]].
    + unfold SpecFloat.valid_binary, bounded, canonical_mantissa.
      rewrite Hdig, fexp_unfold.
      apply andb_true_iff. split.
      * apply Z.eqb_eq. subst ce. lia.
      * apply Z.leb_le. unfold emax, prec. lia.
    + rewrite Hsh, <- Z.mul_assoc. f_equal.
      rewrite <- pow2_split by lia. f_equal. lia.
  - exists r, e. split; [reflexivity|]. split; [|split; [lia|reflexivity]].
    unfold SpecFloat.valid_binary, bounded, canonical_mantissa. rewrite fexp_unfold.
    fold d. apply andb_true_iff. split.
    + apply Z.eqb_eq. lia.
    + apply Z.leb_le. unfold emax, prec. lia.
Qed.

(** The remainder of a finite number by a positive normal one: a zero or a
    valid number of the sign of the dividend and of smaller magnitude than
    the divisor. *)
Lemma SFfmod_finite (sx : bool) (mx : positive) (ex : Z) (my : positive) (ey : Z) :
  valid_binary (S754_finite sx mx ex) = true ->
  valid_binary (S754_finite false my ey) = true ->
  2 ^ 52 <= Z.pos my ->
  match SFfmod (S754_finite sx mx ex) (S754_finite false my ey) with
  | S754_zero s => s = sx
  | S754_finite s m e =>
      s = sx /\ valid_binary (S754_finite s m e) = true /\ -1074 <= e <= ey /\
      Z.pos m * 2 ^ (e + 1074) < Z.pos my * 2 ^ (ey + 1074)
  | _ => False
  end.
Proof.
  intros Vx Vy Hmy. unfold SFfmod.
  pose proof (valid_finite _ _ _ Vx) as (Hex & Hmx & _).
  pose proof (valid_finite _ _ _ Vy) as (Hey & Hmy' & _).
  destruct (Z.ltb_spec ex ey) as [Hlt|Hge].
  - split; [reflexivity|]. split; [exact Vx|]. split; [lia|].
    assert (Hs : 2 ^ (ey + 1074) = 2 ^ (ey - ex) * 2 ^ (ex + 1074)).
    { rewrite <- (pow2_split (ey - ex) (ex + 1074)) by lia. f_equal. lia. }
    rewrite Hs.
    assert (HP : 0 < 2 ^ (ex + 1074)) by (apply pow2_pos; lia).
    assert (HQ : 2 <= 2 ^ (ey - ex)).
    { change 2 with (2 ^ 1) at 1. apply Z.pow_le_mono_r; lia. }
    change (2 ^ 53) with (2 * 2 ^ 52) in Hmx. nia.
  - pose proof (Z.mod_pos_bound (Z.pos mx * 2 ^ (ex - ey)) (Z.pos my) ltac:(lia)) as Hr.
    destruct ((Z.pos mx * 2 ^ (ex - ey)) mod Z.pos my) as [|r|r]; [reflexivity| |lia].
    destruct (SFnormal_spec sx r ey ltac:(lia) ltac:(lia)) as (m' & e' & -> & Vr & He' & Hval).
    split; [reflexivity|]. split; [exact Vr|]. split; [lia|].
    rewrite Hval. apply Z.mul_lt_mono_pos_r; [apply pow2_pos; lia|lia].
Qed.

(** [SFfmod] is the remainder: on valid finite operands the magnitude of the
    result is the magnitude of the dividend modulo that of the divisor, and
    its sign is the sign of the dividend. *)
Lemma SFfmod_exact (sx : bool) (mx : positive) (ex : Z) (sy : bool) (my : positive) (ey : Z) :
  valid_binary (S754_finite sx mx ex) = true ->
  valid_binary (S754_finite sy my ey) = true ->
  SFmagnitude (SFfmod (S754_finite sx mx ex) (S754_finite sy my ey)) =
  SFmagnitude (S754_finite sx mx ex) mod SFmagnitude (S754_finite sy my ey) /\
  match SFfmod (S754_finite sx mx ex) (S754_finite sy my ey) with
  | S754_zero s | S754_finite s _ _ => s = sx
  | _ => False
  end.
Proof.
  intros Vx Vy. unfold SFfmod, SFmagnitude at 2 3.
  pose proof (valid_finite _ _ _ Vx) as (Hex & Hmx & _).
  pose proof (valid_finite _ _ _ Vy) as (Hey & Hmy & Hny).
  assert (HPy : 0 < 2 ^ (ey + 1074)) by (apply pow2_pos; lia).
  destruct (Z.ltb_spec ex ey) as [Hlt|Hge].
  - split; [|reflexivity]. unfold SFmagnitude.
    symmetry. apply Z.mod_small.
    assert (Hs : 2 ^ (ey + 1074) = 2 ^ (ey - ex) * 2 ^ (ex + 1074)).
    { rewrite <- (pow2_split (ey - ex) (ex + 1074)) by lia. f_equal. lia. }
    rewrite Hs.
    assert (HP : 0 < 2 ^ (ex + 1074)) by (apply pow2_pos; lia).
    assert (HQ : 2 <= 2 ^ (ey - ex)).
    { change 2 with (2 ^ 1) at 1. apply Z.pow_le_mono_r; lia. }
    assert (2 ^ 52 <= Z.pos my) by lia.
    change (2 ^ 53) with (2 * 2 ^ 52) in Hmx. nia.
  - assert (Hs : 2 ^ (ex + 1074) = 2 ^ (ex - ey) * 2 ^ (ey + 1074)).
    { rewrite <- (pow2_split (ex - ey) (ey + 1074)) by lia. f_equal. lia. }
    rewrite Hs, Z.mul_assoc, Zmult_mod_distr_r.
    pose proof (Z.mod_pos_bound (Z.pos mx * 2 ^ (ex - ey)) (Z.pos my) ltac:(lia)) as Hr.
    destruct ((Z.pos mx * 2 ^ (ex - ey)) mod Z.pos my) as [|r|r]; [now split| |lia].
    destruct (SFnormal_spec sx r ey ltac:(lia) ltac:(lia)) as (m' & e' & -> & _ & _ & Hval).
    split; [exact Hval|reflexivity].
Qed.

End Remainder.


Section PythonRemainder.

#[local] Open Scope Z_scope.

Lemma Prim2SF_zero : Prim2SF 0%float = S754_zero false.
Proof. reflexivity. Qed.

Lemma Prim2SF_infinity : Prim2SF infinity = S754_infinity false.
Proof. reflexivity. Qed.

Lemma SFcompare_refl_finite (s : bool) (m : positive) (e : Z) :
  SFcompare (S754_finite s m e) (S754_finite s m e) = Some Eq.
Proof.
  unfold SFcompare. rewrite Z.compare_refl.
  change (Pos.compare_cont Eq m m) with (Pos.compare m m). rewrite Pos.compare_refl.
  now destruct s.
Qed.

(** [is_finite] singles out the zeros and the finite numbers. *)
Lemma is_finite_spec (x : float) :
  is_finite x = match Prim2SF x with
                | S754_zero _ | S754_finite _ _ _ => true
                | _ => false
                end.
Proof.
  unfold is_finite, is_nan, is_infinity.
  rewrite !FloatAxioms.eqb_spec, FloatAxioms.abs_spec, Prim2SF_infinity. unfold SFeqb.
  destruct (Prim2SF x) as [s|s| |s m e]; try reflexivity.
  - now destruct s.
  - rewrite SFcompare_refl_finite. reflexivity.
Qed.

(** What [float_rem] returns for a zero remainder. *)
Lemma float_rem_zero_branch (wx : float) (my : positive) (ey : Z) (s : bool) :
  Prim2SF wx = S754_finite false my ey ->
  let rem := SF2Prim (S754_zero s) in
  (rem =? 0)%float = true /\ (wx <? 0)%float = false /\
  Prim2SF (rem * rem)%float = S754_zero false.
Proof.
  intros Hy rem.
  assert (Hrem : Prim2SF rem = S754_zero s) by (apply Prim2SF_SF2Prim; reflexivity).
  rewrite FloatAxioms.eqb_spec, FloatAxioms.ltb_spec, FloatAxioms.mul_spec, Hrem, Hy, Prim2SF_zero.
  repeat split. simpl. now destruct s.
Qed.

Lemma zero_in_range (r wx : float) (my : positive) (ey : Z) :
  Prim2SF wx = S754_finite false my ey -> Prim2SF r = S754_zero false ->
  (0 <=? r)%float = true /\ (r <=? wx)%float = true /\ (r <? wx)%float = true.
Proof.
  intros Hy Hr. rewrite !FloatAxioms.leb_spec, FloatAxioms.ltb_spec, Hr, Hy, Prim2SF_zero. repeat split.
Qed.

(** Python's [vx % wx] for a finite [vx] and a positive normal [wx] that is
    not among the largest numbers: the result lies between 0 and [wx], and
    below [wx] when [vx] is not negative. *)
Lemma float_rem_range (vx wx : float) (my : positive) (ey : Z) :
  Prim2SF wx = S754_finite false my ey -> 2 ^ 52 <= Z.pos my -> ey + 53 <= 971 ->
  is_finite vx = true ->
  exists r, float_rem vx wx = Ok r /\
            (0 <=? r)%float = true /\ (r <=? wx)%float = true /\
            ((0 <=? vx)%float = true -> (r <? wx)%float = true).
Proof.
  intros Hy Hmy Hey Hfin.
  pose proof (Prim2SF_valid vx) as Vx. pose proof (Prim2SF_valid wx) as Vy.
  rewrite Hy in Vy. rewrite is_finite_spec in Hfin.
  unfold float_rem, fmod.
  assert (Hw0 : (wx =? 0)%float = false) by (rewrite FloatAxioms.eqb_spec, Hy, Prim2SF_zero; reflexivity).
  rewrite Hw0, Hy.
  assert (Hzero : forall s,
    exists r,
      (let rem := SF2Prim (S754_zero s) in
       if negb (rem =? 0)%float
       then if xorb (wx <? 0)%float (rem <? 0)%float then Ok (rem + wx)%float else Ok rem
       else if (wx <? 0)%float then Ok (- (rem * rem))%float else Ok (rem * rem)%float) =
      Ok r /\
      (0 <=? r)%float = true /\ (r <=? wx)%float = true /\ (r <? wx)%float = true).
  { intros s. destruct (float_rem_zero_branch wx my ey s Hy) as (E1 & E2 & E3).
    cbv zeta in *. rewrite E1, E2. simpl.
    eexists. split; [reflexivity|]. now apply (zero_in_range _ wx my ey). }
  destruct (Prim2SF vx) as [s|s| |sx mx ex] eqn:Ex; try discriminate.
  - (* vx is a zero *)
    destruct (Hzero s) as (r & Hr & H1 & H2 & H3).
    exists r. split; [exact Hr|]. repeat split; auto.
  - pose proof (SFfmod_finite sx mx ex my ey Vx Vy Hmy) as Hmod.
    destruct (SFfmod (S754_finite sx mx ex) (S754_finite false my ey))
      as [s|s| |s m e] eqn:Emod; try contradiction.
    + (* the remainder is zero *)
      destruct (Hzero s) as (r & Hr & H1 & H2 & H3).
      exists r. split; [exact Hr|]. repeat split; auto.
    + destruct Hmod as (-> & Vr & He & Hlt).
      set (rem := SF2Prim (S754_finite sx m e)).
      assert (Hrem : Prim2SF rem = S754_finite sx m e) by now apply Prim2SF_SF2Prim.
      assert (Hr0 : (rem =? 0)%float = false).
      { rewrite FloatAxioms.eqb_spec, Hrem, Prim2SF_zero. unfold SFeqb. simpl. now destruct sx. }
      assert (Hwneg : (wx <? 0)%float = false)
        by (rewrite FloatAxioms.ltb_spec, Hy, Prim2SF_zero; reflexivity).
      assert (Hrneg : (rem <? 0)%float = sx).
      { rewrite FloatAxioms.ltb_spec, Hrem, Prim2SF_zero. unfold SFltb. simpl. now destruct sx. }
      rewrite Hr0, Hwneg, Hrneg. simpl.
      destruct sx; simpl.
      * (* negative remainder: the divisor is added *)
        exists (rem + wx)%float. split; [reflexivity|].
        pose proof (Prim2SF_valid (rem + wx)%float) as Vs.
        pose proof (valid_finite _ _ _ Vy) as (_ & Hmy' & _).
        pose proof (SFadd_neg_le m e my ey ltac:(lia) Hey Hmy' Hlt) as Hadd.
        rewrite !FloatAxioms.leb_spec, FloatAxioms.ltb_spec, FloatAxioms.add_spec, Hrem, Hy, Prim2SF_zero.
        rewrite FloatAxioms.add_spec, Hrem, Hy in Vs. unfold SF64add in *.
        destruct (SFadd prec emax (S754_finite true m e) (S754_finite false my ey))
          as [s'|s'| |s' m' e']; try contradiction.
        -- subst s'. repeat split.
        -- destruct Hadd as (-> & He' & Hle). split; [reflexivity|]. split.
           ++ unfold SFleb. rewrite (SFcompare_finite_pos _ _ _ _ Vs Vy).
              destruct (Z.compare_spec (Z.pos m' * 2 ^ (e' + 1074))
                          (Z.pos my * 2 ^ (ey + 1074))); try reflexivity. lia.
           ++ intros H. rewrite Ex in H. discriminate.
      * (* non-negative remainder: returned as it is *)
        exists rem. split; [reflexivity|].
        rewrite !FloatAxioms.leb_spec, FloatAxioms.ltb_spec, Hrem, Hy, Prim2SF_zero.
        unfold SFleb, SFltb. rewrite (SFcompare_finite_pos _ _ _ _ Vr Vy).
        apply Z.compare_lt_iff in Hlt. rewrite Hlt. repeat split.
Qed.

(** For a [vx] that is infinite or not a number the result is not a number. *)
Lemma float_rem_not_finite (vx wx : float) (my : positive) (ey : Z) :
  Prim2SF wx = S754_finite false my ey ->
  is_finite vx = false ->
  float_rem vx wx = Ok nan.
Proof.
  intros Hy Hfin. rewrite is_finite_spec in Hfin.
  unfold float_rem, fmod.
  assert (Hw0 : (wx =? 0)%float = false) by (rewrite FloatAxioms.eqb_spec, Hy, Prim2SF_zero; reflexivity).
  assert (Hwneg : (wx <? 0)%float = false)
    by (rewrite FloatAxioms.ltb_spec, Hy, Prim2SF_zero; reflexivity).
  rewrite Hw0, Hy, Hwneg.
  destruct (Prim2SF vx) as [s|s| |sx mx ex]; try discriminate; reflexivity.
Qed.

End PythonRemainder.

Section FloatOrder.

Lemma SFcompare_swap (x y : spec_float) :
  SFcompare y x = option_map CompOpp (SFcompare x y).
Proof.
  destruct x as [sx|sx| |sx mx ex], y as [sy|sy| |sy my ey]; simpl;
    try reflexivity;
    try (destruct sx; reflexivity); try (destruct sy; reflexivity);
    try (destruct sx, sy; reflexivity).
  destruct sx, sy; simpl; try reflexivity.
  - rewrite (Z.compare_antisym ey ex).
    destruct (ey ?= ex)%Z; simpl; try reflexivity.
    now rewrite (Pos.compare_cont_antisym mx my Eq).
  - rewrite (Z.compare_antisym ey ex).
    destruct (ey ?= ex)%Z; simpl; try reflexivity.
    now rewrite (Pos.compare_cont_antisym mx my Eq).
Qed.

(** [x <= y] excludes [y < x]. *)
Lemma leb_not_ltb (x y : float) : (x <=? y)%float = true -> (y <? x)%float = false.
Proof.
  rewrite leb_spec, ltb_spec. unfold SFleb, SFltb.
  rewrite (SFcompare_swap (Prim2SF x) (Prim2SF y)).
  destruct (SFcompare (Prim2SF x) (Prim2SF y)) as [[ | | ]|]; simpl;
    intros H; try reflexivity; discriminate.
Qed.

End FloatOrder.

(** ** applyMeanApparentPlace *)

Section MeanApparentPlace.

Context `{P : Pal}.
Import AstrometryBase.

Ltac case_conditions :=
  repeat match goal with
         | |- context [if ?c then _ else _] => destruct c; simpl
         end.

(** One turn of the loop stores what [apparent_star] computes, and raises
    when an entry is missing. *)
Lemma mean_apparent_step_fill (ra dec pm_ra pm_dec parallax v_rad : list float)
    (prms : mappa_params) (i : nat) (out : list float * list float) :
  mean_apparent_step ra dec pm_ra pm_dec parallax v_rad prms i out =
  fill_step (apparent_star ra dec pm_ra pm_dec parallax v_rad prms) i out.
Proof.
  destruct out as [raOut decOut].
  unfold mean_apparent_step, fill_step, apparent_star, apparent_place, exceeds, getitem.
  destruct (ra !! i), (dec !! i), (pm_ra !! i), (pm_dec !! i), (parallax !! i),
    (v_rad !! i); simpl; case_conditions; reflexivity.
Qed.

Lemma apparent_star_Raise (ra dec pm_ra pm_dec parallax v_rad : list float)
    (prms : mappa_params) (i : nat) (e : exn) :
  apparent_star ra dec pm_ra pm_dec parallax v_rad prms i = Raise e -> e = IndexError.
Proof.
  unfold apparent_star, getitem.
  destruct (ra !! i), (dec !! i), (pm_ra !! i), (pm_dec !! i), (parallax !! i),
    (v_rad !! i); simpl; intros H; inversion H; reflexivity.
Qed.

Lemma apparent_star_Ok (ra dec pm_ra pm_dec parallax v_rad : list float)
    (prms : mappa_params) (i : nat) (r d a b p v : float) :
  ra !! i = Some r -> dec !! i = Some d -> pm_ra !! i = Some a ->
  pm_dec !! i = Some b -> parallax !! i = Some p -> v_rad !! i = Some v ->
  apparent_star ra dec pm_ra pm_dec parallax v_rad prms i =
  Ok (apparent_place r d a b p v prms).
Proof.
  intros Hr Hd Ha Hb Hp Hv. unfold apparent_star, getitem.
  rewrite Hr, Hd, Ha, Hb, Hp, Hv. reflexivity.
Qed.

(** The whole method on arrays of equal length. *)
Lemma applyMeanApparentPlace_collect (ra dec : list float)
    (pm_ra pm_dec parallax v_rad : option (list float)) (Epoch0 MJD : float) :
  length ra = length dec ->
  applyMeanApparentPlace ra dec pm_ra pm_dec parallax v_rad Epoch0 MJD =
  vs ← collect (apparent_star ra dec (or_zeros pm_ra (length ra))
                  (or_zeros pm_dec (length ra)) (or_zeros parallax (length ra))
                  (or_zeros v_rad (length ra)) (pal_mappa Epoch0 MJD)) 0 (length ra);
  Ok (vs.*1, vs.*2).
Proof.
  intros Hlen. unfold applyMeanApparentPlace.
  rewrite Hlen, Nat.eqb_refl. simpl. rewrite <- Hlen.
  erewrite for_range_ext by (intros; apply mean_apparent_step_fill).
  rewrite for_range_fill by (rewrite length_zeros; reflexivity).
  reflexivity.
Qed.

Lemma collect_Raise_inv {A : Type} (g : nat -> result A) (start count : nat) (e : exn) :
  collect g start count = Raise e -> exists j, g j = Raise e.
Proof.
  revert start. induction count as [|k IH]; intros start; simpl; [discriminate|].
  destruct (g start) as [v|e'] eqn:Ev; simpl.
  - destruct (collect g (S start) k) as [vs|e'] eqn:E; simpl; [discriminate|].
    intros H. inversion H; subst e'. now apply (IH (S start)).
  - intros H. inversion H; subst e'. now exists start.
Qed.

(** On arrays of different lengths the method raises at once. *)
Lemma applyMeanApparentPlace_mismatch (ra dec : list float)
    (pm_ra pm_dec parallax v_rad : option (list float)) (Epoch0 MJD : float) :
  length ra <> length dec ->
  applyMeanApparentPlace ra dec pm_ra pm_dec parallax v_rad Epoch0 MJD =
  Raise (ValueError (length_mismatch_message (length ra) (length dec))).
Proof.
  intros Hne. unfold applyMeanApparentPlace.
  destruct (Nat.eqb_spec (length ra) (length dec)) as [Heq|_]; [contradiction|].
  reflexivity.
Qed.

(** On arrays of equal length the only exception is [IndexError], raised
    when an optional array is shorter than [ra]. *)
Lemma applyMeanApparentPlace_Raise (ra dec : list float)
    (pm_ra pm_dec parallax v_rad : option (list float)) (Epoch0 MJD : float) (e : exn) :
  length ra = length dec ->
  applyMeanApparentPlace ra dec pm_ra pm_dec parallax v_rad Epoch0 MJD = Raise e ->
  e = IndexError.
Proof.
  intros Hlen. rewrite applyMeanApparentPlace_collect by exact Hlen.
  destruct (collect _ 0 (length ra)) as [vs|e'] eqn:E; simpl; [discriminate|].
  intros H. inversion H; subst e'.
  destruct (collect_Raise_inv _ _ _ _ E) as [j Hj].
  now apply apparent_star_Raise in Hj.
Qed.

(** The arrays the method returns when every optional array that is passed
    has at least [len(ra)] entries. *)
Lemma applyMeanApparentPlace_Ok (ra dec : list float)
    (pm_ra pm_dec parallax v_rad : option (list float)) (Epoch0 MJD : float) :
  length ra = length dec ->
  length ra <= length (or_zeros pm_ra (length ra)) ->
  length ra <= length (or_zeros pm_dec (length ra)) ->
  length ra <= length (or_zeros parallax (length ra)) ->
  length ra <= length (or_zeros v_rad (length ra)) ->
  exists raOut decOut,
    applyMeanApparentPlace ra dec pm_ra pm_dec parallax v_rad Epoch0 MJD =
      Ok (raOut, decOut) /\
    length raOut = length ra /\ length decOut = length ra /\
    forall i r d a b p v,
      ra !! i = Some r -> dec !! i = Some d ->
      or_zeros pm_ra (length ra) !! i = Some a ->
      or_zeros pm_dec (length ra) !! i = Some b ->
      or_zeros parallax (length ra) !! i = Some p ->
      or_zeros v_rad (length ra) !! i = Some v ->
      raOut !! i = Some ((apparent_place r d a b p v (pal_mappa Epoch0 MJD)).1) /\
      decOut !! i = Some ((apparent_place r d a b p v (pal_mappa Epoch0 MJD)).2).
Proof.
  intros Hlen Ha Hb Hp Hv.
  unfold applyMeanApparentPlace. rewrite Hlen, Nat.eqb_refl. simpl. rewrite <- Hlen.
  erewrite for_range_ext by (intros; apply mean_apparent_step_fill).
  set (g := apparent_star _ _ _ _ _ _ _).
  destruct (for_range_fill_Ok g (length ra) (zeros (length ra)) (zeros (length ra)))
    as (raOut & decOut & Hrun & Hl1 & Hl2 & Hpt);
    try apply length_zeros.
  - intros i Hi. subst g.
    destruct (lookup_lt_is_Some_2 ra i Hi) as [r Hr].
    destruct (lookup_lt_is_Some_2 dec i ltac:(lia)) as [d Hd].
    destruct (lookup_lt_is_Some_2 _ i (Nat.lt_le_trans _ _ _ Hi Ha)) as [a Hia].
    destruct (lookup_lt_is_Some_2 _ i (Nat.lt_le_trans _ _ _ Hi Hb)) as [b Hib].
    destruct (lookup_lt_is_Some_2 _ i (Nat.lt_le_trans _ _ _ Hi Hp)) as [p Hip].
    destruct (lookup_lt_is_Some_2 _ i (Nat.lt_le_trans _ _ _ Hi Hv)) as [v Hiv].
    now rewrite (apparent_star_Ok _ _ _ _ _ _ _ _ _ _ _ _ _ _ Hr Hd Hia Hib Hip Hiv).
  - exists raOut, decOut. repeat split; try assumption.
    + apply (Hpt i (apparent_place r d a b p v (pal_mappa Epoch0 MJD))).
      * now apply lookup_lt_Some in H.
      * subst g. now apply apparent_star_Ok.
    + apply (Hpt i (apparent_place r d a b p v (pal_mappa Epoch0 MJD))).
      * now apply lookup_lt_Some in H.
      * subst g. now apply apparent_star_Ok.
Qed.

End MeanApparentPlace.

Section MeanApparentPlaceClaims.

Context `{P : Pal}.
Import AstrometryBase.



End MeanApparentPlaceClaims.

(** ** applyMeanObservedPlace *)

Section MeanObservedPlace.

Context `{P : Pal}.
Import AstrometryBase.
Variable self : Catalog.

Lemma for_range_invariant {S : Type} (I : S -> Prop) (body : nat -> S -> result S)
    (start count : nat) (s s' : S) :
  (forall i t t', I t -> body i t = Ok t' -> I t') ->
  I s -> for_range body start count s = Ok s' -> I s'.
Proof.
  intros Hstep. revert start s. induction count as [|k IH]; intros start s Hs; simpl.
  - intros H. now inversion H; subst.
  - destruct (body start s) as [t|e] eqn:E; simpl; [|discriminate].
    apply IH. now apply (Hstep start s t).
Qed.

(** Whether or not altitude and azimuth are asked for, the loop stores in
    [raOut] and [decOut] what [observed_star] computes, and raises when it
    raises. *)
Lemma mean_observed_loop (ra dec : list float) (obsPrms : aoppa_params)
    (altAzHr : bool) (start count : nat) (raOut decOut alt az : list float) :
  length raOut = start + count -> length decOut = start + count ->
  (fun st => (st.1.1.1, st.1.1.2)) <$>
    for_range (mean_observed_step self ra dec obsPrms altAzHr) start count
      (raOut, decOut, alt, az) =
  for_range (fill_step (observed_star ra dec obsPrms)) start count (raOut, decOut).
Proof.
  revert start raOut decOut alt az.
  induction count as [|k IH]; intros start raOut decOut alt az Hl1 Hl2; simpl.
  - reflexivity.
  - unfold mean_observed_step, fill_step at 2, observed_star, observed_place_of, getitem.
    destruct (ra !! start) as [r|]; simpl; [|reflexivity].
    destruct (dec !! start) as [d|]; simpl; [|reflexivity].
    destruct altAzHr.
    + rewrite list_lookup_insert_eq by lia. simpl.
      apply IH; rewrite length_insert; lia.
    + simpl. apply IH; rewrite length_insert; lia.
Qed.

(** When altitude and azimuth are asked for, the loop stores in [alt] and
    [az] what [horizon_star] computes. *)
Lemma mean_observed_loop_horizon (ra dec : list float) (obsPrms : aoppa_params)
    (start count : nat) (raOut decOut alt az : list float) :
  length decOut = start + count ->
  (fun st => (st.1.2, st.2)) <$>
    for_range (mean_observed_step self ra dec obsPrms true) start count
      (raOut, decOut, alt, az) =
  for_range (fill_step (horizon_star self ra dec obsPrms)) start count (alt, az).
Proof.
  revert start raOut decOut alt az.
  induction count as [|k IH]; intros start raOut decOut alt az Hl; simpl.
  - reflexivity.
  - unfold mean_observed_step, fill_step at 2, horizon_star, horizon_of, getitem.
    destruct (ra !! start) as [r|]; simpl; [|reflexivity].
    destruct (dec !! start) as [d|]; simpl; [|reflexivity].
    rewrite list_lookup_insert_eq by lia. simpl.
    apply IH. rewrite length_insert. lia.
Qed.

Lemma mean_observed_step_lengths (ra dec : list float) (obsPrms : aoppa_params)
    (altAzHr : bool) (n i : nat)
    (t t' : list float * list float * list float * list float) :
  (length (t.1.2) = n /\ length (t.2) = n) ->
  mean_observed_step self ra dec obsPrms altAzHr i t = Ok t' ->
  length (t'.1.2) = n /\ length (t'.2) = n.
Proof.
  destruct t as [[[raOut decOut] alt] az]. simpl. intros [Hl1 Hl2].
  unfold mean_observed_step, getitem.
  destruct (ra !! i); simpl; [|discriminate].
  destruct (dec !! i); simpl; [|discriminate].
  destruct altAzHr.
  - destruct (<[i:=_]> decOut !! i); simpl; [|discriminate].
    intros H. inversion H; subst. simpl. now rewrite !length_insert.
  - intros H. inversion H; subst. simpl. now split.
Qed.

Lemma observed_star_total (ra dec : list float) (obsPrms : aoppa_params) (i : nat) :
  i < length ra -> i < length dec ->
  is_ok (observed_star ra dec obsPrms i) = true.
Proof.
  intros Hi Hle. unfold observed_star.
  destruct (getitem_lt ra i Hi) as [r ->].
  destruct (getitem_lt dec i Hle) as [d ->]. reflexivity.
Qed.

(** The two variants agree on [raOut] and [decOut], and on the exception
    when there is one. *)
Lemma applyMeanObservedPlace_ra_dec (ra dec : list float) (MJD : float)
    (includeRefraction altAzHr : bool) (wavelength : float) :
  observed_ra_dec <$>
    applyMeanObservedPlace self ra dec MJD includeRefraction altAzHr wavelength =
  for_range (fill_step (observed_star ra dec
                          (observed_params self MJD includeRefraction wavelength)))
    0 (length ra) (zeros (length ra), zeros (length ra)).
Proof.
  rewrite <- (mean_observed_loop ra dec _ altAzHr 0 (length ra) _ _
                (if altAzHr then zeros (length ra) else [])
                (if altAzHr then zeros (length ra) else []))
    by apply length_zeros.
  unfold applyMeanObservedPlace.
  destruct (for_range _ 0 (length ra) _) as [[[[raOut decOut] alt] az]|e];
    simpl; [|reflexivity].
  now destruct altAzHr.
Qed.

(** The shape of what the method returns is decided by [altAzHr] alone. *)
Lemma applyMeanObservedPlace_shape (ra dec : list float) (MJD : float)
    (includeRefraction altAzHr : bool) (wavelength : float) (o : observed_place) :
  applyMeanObservedPlace self ra dec MJD includeRefraction altAzHr wavelength = Ok o ->
  if altAzHr
  then exists raOut decOut alt az,
         o = RaDecAltAz raOut decOut alt az /\
         length alt = length ra /\ length az = length ra
  else exists raOut decOut, o = RaDec raOut decOut.
Proof.
  unfold applyMeanObservedPlace.
  destruct (for_range _ 0 (length ra) _) as [[[[raOut decOut] alt] az]|e] eqn:E;
    simpl; [|discriminate].
  destruct altAzHr; simpl; intros H; inversion H; subst.
  - exists raOut, decOut, alt, az. split; [reflexivity|].
    apply (for_range_invariant
             (fun t => length (t.1.2) = length ra /\ length (t.2) = length ra)
             _ _ _ _ _ (fun i t t' => mean_observed_step_lengths _ _ _ _ _ i t t') ) in E.
    + exact E.
    + simpl. now rewrite length_zeros.
  - now exists raOut, decOut.
Qed.

(** On [dec] at least as long as [ra] the method returns; the entries of
    [raOut] and [decOut] are entries 4 and 3 of [pal.aopqk]'s output. *)
Lemma applyMeanObservedPlace_Ok (ra dec : list float) (MJD : float)
    (includeRefraction altAzHr : bool) (wavelength : float) :
  length ra <= length dec ->
  exists o raOut decOut,
    applyMeanObservedPlace self ra dec MJD includeRefraction altAzHr wavelength = Ok o /\
    observed_ra_dec o = (raOut, decOut) /\
    length raOut = length ra /\ length decOut = length ra /\
    forall i r d, ra !! i = Some r -> dec !! i = Some d ->
      raOut !! i = Some ((observed_place_of r d
                           (observed_params self MJD includeRefraction wavelength)).1) /\
      decOut !! i = Some ((observed_place_of r d
                            (observed_params self MJD includeRefraction wavelength)).2).
Proof.
  intros Hle.
  pose proof (applyMeanObservedPlace_ra_dec ra dec MJD includeRefraction altAzHr
                wavelength) as Hproj.
  set (g := observed_star ra dec _) in Hproj.
  destruct (for_range_fill_Ok g (length ra) (zeros (length ra)) (zeros (length ra)))
    as (raOut & decOut & Hrun & Hl1 & Hl2 & Hpt); try apply length_zeros.
  { intros i Hi. apply observed_star_total; lia. }
  rewrite Hrun in Hproj.
  destruct (applyMeanObservedPlace self ra dec MJD includeRefraction altAzHr wavelength)
    as [o|e]; simpl in Hproj; [|discriminate].
  exists o, raOut, decOut. split; [reflexivity|].
  split; [now inversion Hproj|].
  repeat split; try assumption.
  - apply (Hpt i (observed_place_of r d (observed_params self MJD includeRefraction wavelength))).
    + now apply lookup_lt_Some in H.
    + subst g. unfold observed_star, getitem. now rewrite H, H0.
  - apply (Hpt i (observed_place_of r d (observed_params self MJD includeRefraction wavelength))).
    + now apply lookup_lt_Some in H.
    + subst g. unfold observed_star, getitem. now rewrite H, H0.
Qed.

(** When [dec] is shorter than [ra] both variants raise [IndexError]. *)
Lemma applyMeanObservedPlace_short_dec (ra dec : list float) (MJD : float)
    (includeRefraction altAzHr : bool) (wavelength : float) :
  length dec < length ra ->
  applyMeanObservedPlace self ra dec MJD includeRefraction altAzHr wavelength =
  Raise IndexError.
Proof.
  intros Hlt.
  pose proof (applyMeanObservedPlace_ra_dec ra dec MJD includeRefraction altAzHr
                wavelength) as Hproj.
  rewrite (for_range_fill_Raise _ (length ra) (length dec) IndexError) in Hproj;
    try apply length_zeros; try assumption.
  - destruct (applyMeanObservedPlace self ra dec MJD includeRefraction altAzHr wavelength);
      simpl in Hproj; [discriminate|now inversion Hproj].
  - intros i Hi. apply observed_star_total; lia.
  - unfold observed_star.
    destruct (getitem_lt ra (length dec) Hlt) as [r ->]. simpl.
    now rewrite getitem_Raise.
Qed.

(** The altitude and azimuth arrays of the four-array variant. *)
Lemma applyMeanObservedPlace_horizon (ra dec : list float) (MJD : float)
    (includeRefraction : bool) (wavelength : float)
    (raOut decOut alt az : list float) :
  applyMeanObservedPlace self ra dec MJD includeRefraction true wavelength =
    Ok (RaDecAltAz raOut decOut alt az) ->
  for_range (fill_step (horizon_star self ra dec
                          (observed_params self MJD includeRefraction wavelength)))
    0 (length ra) (zeros (length ra), zeros (length ra)) = Ok (alt, az).
Proof.
  intros Hrun.
  rewrite <- (mean_observed_loop_horizon ra dec _ 0 (length ra) (zeros (length ra))
                (zeros (length ra)) (zeros (length ra)) (zeros (length ra)))
    by apply length_zeros.
  unfold applyMeanObservedPlace in Hrun. simpl in Hrun.
  destruct (for_range _ 0 (length ra) _) as [[[[raOut' decOut'] alt'] az']|e];
    simpl in *; [|discriminate].
  now inversion Hrun.
Qed.

(** What a filling loop that returned holds at an index. *)
Lemma for_range_fill_lookup {A : Type} (g : nat -> result (A * A)) (n : nat)
    (a0 b0 a b : list A) (i : nat) (v : A * A) :
  length a0 = n -> length b0 = n ->
  for_range (fill_step g) 0 n (a0, b0) = Ok (a, b) ->
  i < n -> g i = Ok v -> a !! i = Some (v.1) /\ b !! i = Some (v.2).
Proof.
  intros Ha Hb Hrun Hi Hv.
  rewrite for_range_fill in Hrun by (simpl; lia).
  destruct (collect g 0 n) as [vs|e] eqn:E; simpl in Hrun; [|discriminate].
  inversion Hrun; subst a b.
  destruct (collect_lookup _ _ _ _ i E Hi) as [w [Hw Hl]].
  simpl in Hw. rewrite Hw in Hv. inversion Hv; subst w.
  now rewrite !list_lookup_fmap, Hl.
Qed.

End MeanObservedPlace.

Section ObservedPlaceClaims.

Context `{P : Pal}.
Import AstrometryBase.
Variable self : Catalog.



End ObservedPlaceClaims.

(** ** applyProperMotion *)

Section ProperMotion.

Context `{P : Pal}.
Import AstrometryBase.
Variable self : Catalog.

Lemma deref_lookup (h : heap) (l : loc) (arr : list float) :
  h !! l = Some arr -> deref h l = arr.
Proof. intros H. unfold deref. now rewrite H. Qed.

(** The first loop, from index [start] on. *)
Lemma clamp_loop (parallax : loc) (count start : nat) (h : heap) (arr : list float) :
  h !! parallax = Some arr -> length arr = start + count ->
  iter_range (clamp_parallax_step parallax) start count h =
  <[parallax := take start arr ++ (clamp <$> drop start arr)]> h.
Proof.
  revert start h arr. induction count as [|k IH]; intros start h arr Hh Hlen; simpl.
  - rewrite drop_ge, app_nil_r, firstn_all2 by lia.
    symmetry. now apply insert_id.
  - destruct (lookup_lt_is_Some_2 arr start ltac:(lia)) as [x Hx].
    unfold clamp_parallax_step at 2. rewrite (deref_lookup _ _ _ Hh), Hx.
    rewrite (drop_S _ _ _ Hx). rewrite fmap_cons.
    replace (clamp x)
      with (if (x <? Const.min_parallax)%float then Const.min_parallax else x)
      by reflexivity.
    destruct (x <? Const.min_parallax)%float.
    + rewrite (IH (S start) _ (<[start := Const.min_parallax]> arr));
        [|apply lookup_insert_eq|rewrite length_insert; lia].
      rewrite insert_insert_eq. f_equal.
      rewrite (take_S_r (<[start := Const.min_parallax]> arr) start Const.min_parallax)
        by (apply list_lookup_insert_eq; lia).
      rewrite take_insert_ge by lia. rewrite drop_insert_lt by lia.
      now rewrite <- app_assoc.
    + rewrite (IH (S start) _ arr Hh) by lia. f_equal.
      rewrite (take_S_r arr start x Hx). now rewrite <- app_assoc.
Qed.

(** The heap the caller sees after the call. *)
Lemma applyProperMotion_heap (ra dec pm_ra pm_dec parallax v_rad : loc)
    (EP0 MJD : float) (h : heap) :
  (applyProperMotion self ra dec pm_ra pm_dec parallax v_rad EP0 MJD h).1 =
  clamp_heap parallax h.
Proof.
  unfold applyProperMotion, clamp_heap. simpl.
  destruct (h !! parallax) as [arr|] eqn:Hh.
  - rewrite (deref_lookup _ _ _ Hh).
    now rewrite (clamp_loop parallax (length arr) 0 h arr Hh).
  - unfold deref. now rewrite Hh.
Qed.

Lemma deref_clamp_heap (parallax l : loc) (h : heap) :
  deref (clamp_heap parallax h) l =
  if decide (l = parallax) then clamp <$> deref h l else deref h l.
Proof.
  unfold clamp_heap, deref. destruct (h !! parallax) as [arr|] eqn:Hh.
  - destruct (decide (l = parallax)) as [->|Hne].
    + now rewrite lookup_insert_eq, Hh.
    + now rewrite lookup_insert_ne by congruence.
  - destruct (decide (l = parallax)) as [->|Hne]; [now rewrite Hh|reflexivity].
Qed.

Lemma length_deref_clamp_heap (parallax l : loc) (h : heap) :
  length (deref (clamp_heap parallax h) l) = length (deref h l).
Proof.
  rewrite deref_clamp_heap. destruct (decide (l = parallax)); [apply length_fmap|reflexivity].
Qed.

Ltac case_conditions :=
  repeat match goal with
         | |- context [if ?c then _ else _] => destruct c; simpl
         end.

(** One turn of the second loop stores what [proper_motion_star] computes. *)
Lemma proper_motion_step_fill (ra dec pm_ra pm_dec parallax v_rad : list float)
    (EP0 julianEpoch : float) (i : nat) (out : list float * list float) :
  proper_motion_step ra dec pm_ra pm_dec parallax v_rad EP0 julianEpoch i out =
  fill_step (proper_motion_star ra dec pm_ra pm_dec parallax v_rad EP0 julianEpoch) i out.
Proof.
  destruct out as [raOut decOut].
  unfold proper_motion_step, fill_step, proper_motion_star, moved_place, getitem.
  destruct (ra !! i), (dec !! i), (pm_ra !! i), (pm_dec !! i), (parallax !! i),
    (v_rad !! i); simpl; case_conditions; reflexivity.
Qed.

(** What the call returns or raises, in terms of the heap it leaves. *)
Lemma applyProperMotion_result (ra dec pm_ra pm_dec parallax v_rad : loc)
    (EP0 MJD : float) (h : heap) :
  let h' := clamp_heap parallax h in
  (applyProperMotion self ra dec pm_ra pm_dec parallax v_rad EP0 MJD h).2 =
  for_range (fill_step (proper_motion_star (deref h' ra) (deref h' dec) (deref h' pm_ra)
                          (deref h' pm_dec) (deref h' parallax) (deref h' v_rad) EP0
                          (pal_epj (obs_metadata_mjd self))))
    0 (length (deref h' ra)) (zeros (length (deref h' ra)), zeros (length (deref h' ra))).
Proof.
  intros h'.
  pose proof (applyProperMotion_heap ra dec pm_ra pm_dec parallax v_rad EP0 MJD h) as Hh.
  unfold applyProperMotion in *. simpl in *. rewrite Hh. fold h'.
  apply for_range_ext. intros. apply proper_motion_step_fill.
Qed.

(** A star whose two proper motions are within [EPSILON] keeps its place. *)
Lemma proper_motion_star_still (ra dec pm_ra pm_dec parallax v_rad : list float)
    (EP0 julianEpoch : float) (i : nat) (r d a b : float) :
  ra !! i = Some r -> dec !! i = Some d -> pm_ra !! i = Some a -> pm_dec !! i = Some b ->
  (abs a <=? Const.EPSILON)%float = true -> (abs b <=? Const.EPSILON)%float = true ->
  proper_motion_star ra dec pm_ra pm_dec parallax v_rad EP0 julianEpoch i = Ok (r, d).
Proof.
  intros Hr Hd Ha Hb Hsa Hsb. unfold proper_motion_star, getitem.
  rewrite Ha, Hb, Hr, Hd. simpl.
  rewrite (leb_not_ltb _ _ Hsa). simpl. rewrite (leb_not_ltb _ _ Hsb). reflexivity.
Qed.

Lemma proper_motion_star_total (ra dec pm_ra pm_dec parallax v_rad : list float)
    (EP0 julianEpoch : float) (i : nat) :
  i < length ra -> i < length dec -> i < length pm_ra -> i < length pm_dec ->
  i < length parallax -> i < length v_rad ->
  is_ok (proper_motion_star ra dec pm_ra pm_dec parallax v_rad EP0 julianEpoch i) = true.
Proof.
  intros H1 H2 H3 H4 H5 H6. unfold proper_motion_star.
  destruct (getitem_lt ra i H1) as [r ->]. destruct (getitem_lt dec i H2) as [d ->].
  destruct (getitem_lt pm_ra i H3) as [a ->]. destruct (getitem_lt pm_dec i H4) as [b ->].
  destruct (getitem_lt parallax i H5) as [p ->]. destruct (getitem_lt v_rad i H6) as [v ->].
  simpl. case_conditions; reflexivity.
Qed.

End ProperMotion.

Section ProperMotionClaims.

Context `{P : Pal}.
Import AstrometryBase.
Variable self : Catalog.

(** The call writes to the caller's [parallax] array and to nothing else:
    the entries below 0.00045 are replaced by 0.00045. *)
Lemma applyProperMotion_frame (ra dec pm_ra pm_dec parallax v_rad : loc)
    (EP0 MJD : float) (h : heap) (l : loc) :
  deref (applyProperMotion self ra dec pm_ra pm_dec parallax v_rad EP0 MJD h).1 l =
  if decide (l = parallax) then clamp <$> deref h l else deref h l.
Proof. rewrite applyProperMotion_heap. apply deref_clamp_heap. Qed.

(** When no parallax is below the floor the heap is left as it was. *)
Lemma applyProperMotion_heap_unchanged (ra dec pm_ra pm_dec parallax v_rad : loc)
    (EP0 MJD : float) (h : heap) :
  Forall (fun x => (x <? Const.min_parallax)%float = false) (deref h parallax) ->
  (applyProperMotion self ra dec pm_ra pm_dec parallax v_rad EP0 MJD h).1 = h.
Proof.
  intros Hall. rewrite applyProperMotion_heap. unfold clamp_heap.
  destruct (h !! parallax) as [arr|] eqn:Hh; [|reflexivity].
  rewrite (deref_lookup _ _ _ Hh) in Hall.
  assert (Hc : clamp <$> arr = arr).
  { clear Hh. induction Hall as [|x xs Hx _ IH]; [reflexivity|].
    rewrite fmap_cons. f_equal; [|exact IH]. unfold clamp. now rewrite Hx. }
  rewrite Hc. now apply insert_id.
Qed.

(** Whenever an entry of the caller's [parallax] array is below the floor,
    the caller's array is not what it was. *)
Lemma applyProperMotion_heap_changed (ra dec pm_ra pm_dec parallax v_rad : loc)
    (EP0 MJD : float) (h : heap) (arr : list float) (i : nat) (x : float) :
  h !! parallax = Some arr -> arr !! i = Some x ->
  (x <? Const.min_parallax)%float = true ->
  (applyProperMotion self ra dec pm_ra pm_dec parallax v_rad EP0 MJD h).1 !! parallax =
    Some (clamp <$> arr) /\
  (clamp <$> arr) !! i = Some Const.min_parallax /\
  (Const.min_parallax <? Const.min_parallax)%float = false.
Proof.
  intros Hh Hx Hlt. rewrite applyProperMotion_heap. unfold clamp_heap. rewrite Hh.
  split; [apply lookup_insert_eq|]. split; [|reflexivity].
  rewrite list_lookup_fmap, Hx. simpl. unfold clamp. now rewrite Hlt.
Qed.

(** C2, the code at a parallax array holding [0.0]: the array the caller
    passed holds 0.00045 after the call, whatever the PAL routines are. *)
Theorem applyProperMotion_overwrites_parallax (EP0 MJD : float) :
  PalStub.heap0 !! 5%positive = Some [0%float] /\
  (applyProperMotion self 1%positive 2%positive 3%positive 4%positive 5%positive
     6%positive EP0 MJD PalStub.heap0).1 !! 5%positive = Some [Const.min_parallax].
Proof.
  split; [reflexivity|]. rewrite applyProperMotion_heap. reflexivity.
Qed.

(** C8: two calls of [applyProperMotion] that differ only in the [MJD]
    argument leave the same heap and return the same arrays (or raise the
    same exception); the epoch handed to [pal.pm] is
    [pal.epj(self.obs_metadata.mjd)]. *)
Theorem applyProperMotion_ignores_MJD (ra dec pm_ra pm_dec parallax v_rad : loc)
    (EP0 MJD MJD' : float) (h : heap) :
  applyProperMotion self ra dec pm_ra pm_dec parallax v_rad EP0 MJD h =
  applyProperMotion self ra dec pm_ra pm_dec parallax v_rad EP0 MJD' h /\
  (applyProperMotion self ra dec pm_ra pm_dec parallax v_rad EP0 MJD h).2 =
  for_range
    (fill_step
       (proper_motion_star (deref (clamp_heap parallax h) ra)
          (deref (clamp_heap parallax h) dec) (deref (clamp_heap parallax h) pm_ra)
          (deref (clamp_heap parallax h) pm_dec) (deref (clamp_heap parallax h) parallax)
          (deref (clamp_heap parallax h) v_rad) EP0 (pal_epj (obs_metadata_mjd self))))
    0 (length (deref (clamp_heap parallax h) ra))
    (zeros (length (deref (clamp_heap parallax h) ra)),
     zeros (length (deref (clamp_heap parallax h) ra))).
Proof.
  split; [reflexivity|]. apply applyProperMotion_result.
Qed.


End ProperMotionClaims.

(** ** calcLast *)

Section LocalSiderealTime.

Context `{P : Pal}.
Import AstrometryBase.

Lemma Prim2SF_two_pi :
  Prim2SF (2 * Const.pi)%float = S754_finite false 7074237752028440 (-50).
Proof. reflexivity. Qed.

(** The sum is always reduced by Python's [%] with the divisor [2*pi]. *)
Lemma calcLast_float_rem (mjd long : float) :
  calcLast mjd long = float_rem (pal_gmsta mjd 0 + long)%float Const.two_pi.
Proof.
  unfold calcLast. change (2 * Const.pi)%float with Const.two_pi.
  now destruct (float_rem _ Const.two_pi).
Qed.

(** When the sum is infinite or not a number, so is the result. *)
Lemma calcLast_not_finite (mjd long : float) :
  is_finite (pal_gmsta mjd 0 + long)%float = false ->
  calcLast mjd long = Ok nan.
Proof.
  intros Hfin. rewrite calcLast_float_rem.
  now apply (float_rem_not_finite _ _ 7074237752028440%positive (-50)%Z).
Qed.

(** A sum of [-2^-52] comes back as [2*pi]: the remainder is the sum itself,
    and adding [2*pi] to it rounds to [2*pi]. *)
Lemma calcLast_tiny_negative_sum (mjd long : float) :
  (pal_gmsta mjd 0 + long)%float = (-0x1p-52)%float ->
  calcLast mjd long = Ok Const.two_pi.
Proof. intros Hsum. rewrite calcLast_float_rem, Hsum. reflexivity. Qed.

(** C10, as amended: when [pal.gmsta(mjd, 0.) + long] is finite, [calcLast]
    returns a value [D] with [0 <= D <= 2*pi], and [D < 2*pi] when the sum is
    not negative. *)
Theorem calcLast_range (mjd long : float) :
  is_finite (pal_gmsta mjd 0 + long)%float = true ->
  exists D,
    calcLast mjd long = Ok D /\
    (0 <=? D)%float = true /\ (D <=? 2 * Const.pi)%float = true /\
    ((0 <=? pal_gmsta mjd 0 + long)%float = true -> (D <? 2 * Const.pi)%float = true).
Proof.
  intros Hfin. rewrite calcLast_float_rem.
  apply (float_rem_range _ Const.two_pi 7074237752028440%positive (-50)%Z);
    [reflexivity|lia|lia|exact Hfin].
Qed.

End LocalSiderealTime.

(** ** The chip lookups *)

Section Strings.

Lemma contains_app_r (s a b : string) :
  contains s b = true -> contains s (a ++ b)%string = true.
Proof.
  intros H. induction a as [|c a IH]; simpl; [exact H|].
  rewrite IH. apply orb_true_r.
Qed.

End Strings.

Section ChipLookup.

Import CameraUtils.
Variable Camera : Type.
Variable chipNamesFromPupilCoords :
  list float -> list float -> Camera -> list (option string).
Variable chipNamesFromRaDec :
  list float -> list float -> ObservationMetaData -> float -> Camera ->
  list (option string).

#[local] Abbreviation pupil_lookup := (findChipNameFromPupilCoords Camera chipNamesFromPupilCoords).
#[local] Abbreviation radec_lookup := (_findChipNameFromRaDec Camera chipNamesFromRaDec).
#[local] Abbreviation radec_lookup_deg := (findChipNameFromRaDec Camera chipNamesFromRaDec).

(** The RA/Dec lookup returns exactly when the call has no defect, and
    otherwise raises a [RuntimeError] that names the first defect and the
    function. *)
Lemma findChipNameFromRaDec_first_defect (ra dec : coordinates)
    (obs_metadata : option ObservationMetaData) (epoch : option float)
    (camera : option Camera) :
  match first_defect Camera ra dec obs_metadata epoch camera with
  | Some d =>
      exists m, radec_lookup ra dec obs_metadata epoch camera = Raise (RuntimeError m) /\
                contains (field_name d) m = true /\ contains "findChipName" m = true
  | None => is_ok (radec_lookup ra dec obs_metadata epoch camera) = true
  end.
Proof.
  unfold first_defect, _findChipNameFromRaDec. simpl.
  destruct (negb (is_ndarray ra && is_ndarray dec)); [now eexists|].
  destruct (negb (length (values ra) =? length (values dec))%nat).
  { eexists. split; [reflexivity|].
    split; repeat (apply contains_app_r; try reflexivity). }
  destruct epoch as [ep|]; [|now eexists].
  destruct obs_metadata as [obs|]; [|now eexists].
  destruct (mjd obs); [|now eexists].
  destruct (rotSkyPos obs); [|now eexists].
  destruct camera; [reflexivity|now eexists].
Qed.

Lemma first_defect_present (ra dec : coordinates)
    (obs_metadata : option ObservationMetaData) (epoch : option float)
    (camera : option Camera) (d : defect) :
  first_defect Camera ra dec obs_metadata epoch camera = Some d ->
  has_defect Camera ra dec obs_metadata epoch camera d = true.
Proof. intros H. now apply find_some in H. Qed.

Lemma first_defect_exists (ra dec : coordinates)
    (obs_metadata : option ObservationMetaData) (epoch : option float)
    (camera : option Camera) (d : defect) :
  has_defect Camera ra dec obs_metadata epoch camera d = true ->
  exists d', first_defect Camera ra dec obs_metadata epoch camera = Some d'.
Proof.
  intros H. unfold first_defect.
  destruct (List.find _ check_order) as [d'|] eqn:E; [now exists d'|].
  exfalso. rewrite (find_none _ _ E d) in H; [discriminate|].
  destruct d; simpl; tauto.
Qed.

(** C5: when one of the two coordinate arguments is a Python list, whichever
    it is, [findChipNameFromPupilCoords] and [_findChipNameFromRaDec] raise a
    [RuntimeError] whose message asks for numpy arrays and names the
    coordinates and the function, whatever the other arguments are. *)
Theorem findChipName_wants_numpy_arrays (c1 c2 : coordinates)
    (obs_metadata : option ObservationMetaData) (epoch : option float)
    (camera : option Camera) :
  is_ndarray c1 = false \/ is_ndarray c2 = false ->
  exists m1 m2,
    pupil_lookup c1 c2 camera = Raise (RuntimeError m1) /\
    contains "numpy arrays" m1 = true /\
    contains "xPupils" m1 = true /\ contains "yPupils" m1 = true /\
    radec_lookup c1 c2 obs_metadata epoch camera = Raise (RuntimeError m2) /\
    contains "numpy arrays" m2 = true /\
    contains "RA" m2 = true /\ contains "Dec" m2 = true.
Proof.
  intros H. unfold findChipNameFromPupilCoords, _findChipNameFromRaDec.
  assert (Hn : negb (is_ndarray c1 && is_ndarray c2) = true).
  { destruct H as [H|H]; rewrite H; [reflexivity|]. now rewrite andb_false_r. }
  rewrite Hn. do 2 eexists. repeat split; reflexivity.
Qed.


End ChipLookup.

(** ** The statements at concrete inputs *)


Section Witnesses.

Import AstrometryBase PalStub.
Open Scope float_scope.





Lemma findChipName_wants_numpy_arrays_witness :
  (CameraUtils.is_ndarray (CameraUtils.PyList [0x1p-4]) = false \/
   CameraUtils.is_ndarray (CameraUtils.NdArray [0x1p-5]) = false) /\
  exists m1 m2,
    CameraUtils.findChipNameFromPupilCoords unit no_chips_pupil
      (CameraUtils.PyList [0x1p-4]) (CameraUtils.NdArray [0x1p-5]) None =
      Raise (RuntimeError m1) /\
    contains "numpy arrays" m1 = true /\
    contains "xPupils" m1 = true /\ contains "yPupils" m1 = true /\
    CameraUtils._findChipNameFromRaDec unit no_chips_ra_dec
      (CameraUtils.PyList [0x1p-4]) (CameraUtils.NdArray [0x1p-5])
      (Some obs0) (Some 2000) None = Raise (RuntimeError m2) /\
    contains "numpy arrays" m2 = true /\
    contains "RA" m2 = true /\ contains "Dec" m2 = true.
Proof.
  split; [left; reflexivity|].
  apply (findChipName_wants_numpy_arrays unit no_chips_pupil no_chips_ra_dec).
  left. reflexivity.
Defined.


(** C10, as stated, fails.  With a sidereal time of 1 radian and the
    longitude [-1.0000000000000002] the sum is [-2.2e-16]; its remainder plus
    [2*pi] rounds to [2*pi], which is returned and is not below [2*pi].  With
    an infinite longitude the result is not a number. *)
Lemma calcLast_reaches_two_pi :
  (-0x1.0000000000001p+0 <? 0) = true /\
  calcLast (P := stub) 51544.5 (-0x1.0000000000001p+0) = Ok (2 * Const.pi) /\
  (2 * Const.pi <? 2 * Const.pi) = false /\
  calcLast (P := stub) 51544.5 neg_infinity = Ok nan /\
  (0 <=? nan) = false.
Proof. repeat split; reflexivity. Qed.

Lemma calcLast_range_witness :
  is_finite (pal_gmsta (Pal := stub) 51544.5 0 + -0x1.4p+0) = true /\
  exists D,
    calcLast (P := stub) 51544.5 (-0x1.4p+0) = Ok D /\
    (0 <=? D) = true /\ (D <=? 2 * Const.pi) = true /\
    ((0 <=? pal_gmsta (Pal := stub) 51544.5 0 + -0x1.4p+0) = true ->
     (D <? 2 * Const.pi) = true).
Proof.
  split; [reflexivity|].
  apply (calcLast_range (P := stub) 51544.5 (-0x1.4p+0)). reflexivity.
Defined.

End Witnesses.

(** * The rest of the module *)

(** ** Zeros and NaN in binary64 arithmetic *)

Section NotANumber.

Open Scope float_scope.

Lemma Prim2SF_nan : Prim2SF nan = S754_nan.
Proof. reflexivity. Qed.

Lemma Prim2SF_nan_inv (x : float) : Prim2SF x = S754_nan -> x = nan.
Proof. intros H. apply Prim2SF_inj. now rewrite H. Qed.

Lemma is_nan_spec (x : float) :
  is_nan x = match Prim2SF x with S754_nan => true | _ => false end.
Proof.
  unfold is_nan. rewrite FloatAxioms.eqb_spec. unfold SFeqb.
  destruct (Prim2SF x) as [s|s| |s m e]; try reflexivity.
  - now destruct s.
  - now rewrite SFcompare_refl_finite.
Qed.

Lemma mul_nan_l (y : float) : nan * y = nan.
Proof.
  apply Prim2SF_inj. rewrite FloatAxioms.mul_spec, Prim2SF_nan. reflexivity.
Qed.

Lemma mul_nan_r (x : float) : x * nan = nan.
Proof.
  apply Prim2SF_inj. rewrite FloatAxioms.mul_spec, Prim2SF_nan.
  now destruct (Prim2SF x).
Qed.

Lemma add_nan_l (y : float) : nan + y = nan.
Proof.
  apply Prim2SF_inj. rewrite FloatAxioms.add_spec, Prim2SF_nan. reflexivity.
Qed.

Lemma add_nan_r (x : float) : x + nan = nan.
Proof.
  apply Prim2SF_inj. rewrite FloatAxioms.add_spec, Prim2SF_nan.
  now destruct (Prim2SF x).
Qed.

Lemma sub_nan_l (y : float) : nan - y = nan.
Proof.
  apply Prim2SF_inj. rewrite FloatAxioms.sub_spec, Prim2SF_nan. reflexivity.
Qed.

Lemma sub_nan_r (x : float) : x - nan = nan.
Proof.
  apply Prim2SF_inj. rewrite FloatAxioms.sub_spec, Prim2SF_nan.
  now destruct (Prim2SF x).
Qed.

Lemma SFmul_comm (x y : spec_float) : SFmul prec emax x y = SFmul prec emax y x.
Proof.
  destruct x as [sx|sx| |sx mx ex], y as [sy|sy| |sy my ey]; simpl;
    try reflexivity; try (now rewrite xorb_comm).
  now rewrite xorb_comm, Pos.mul_comm, Z.add_comm.
Qed.

Lemma float_mul_comm (x y : float) : x * y = y * x.
Proof.
  apply Prim2SF_inj. rewrite !FloatAxioms.mul_spec. apply SFmul_comm.
Qed.

(** A zero of either sign, or NaN. *)
Lemma float_sub_diag (x : float) : zero_or_nan (x - x) = true.
Proof.
  unfold zero_or_nan. rewrite FloatAxioms.sub_spec. unfold SF64sub.
  destruct (Prim2SF x) as [s|s| |s m e]; simpl.
  - now destruct s.
  - now destruct s.
  - reflexivity.
  - rewrite Z.min_id, Z.sub_diag. reflexivity.
Qed.

Lemma zero_or_nan_square (x : float) : zero_or_nan x = true -> zero_or_nan (x * x) = true.
Proof.
  unfold zero_or_nan. rewrite FloatAxioms.mul_spec.
  destruct (Prim2SF x) as [s|s| |s m e]; try discriminate; reflexivity.
Qed.

Lemma zero_or_nan_add (x y : float) :
  zero_or_nan x = true -> zero_or_nan y = true -> zero_or_nan (x + y) = true.
Proof.
  unfold zero_or_nan. rewrite FloatAxioms.add_spec.
  destruct (Prim2SF x) as [sx|sx| |sx mx ex], (Prim2SF y) as [sy|sy| |sy my ey];
    try discriminate; try reflexivity.
  intros _ _. now destruct sx, sy.
Qed.

Lemma zero_or_nan_sqrt (x : float) :
  zero_or_nan x = true ->
  math_sqrt x = Ok (sqrt x) /\ zero_or_nan (sqrt x) = true.
Proof.
  unfold zero_or_nan, math_sqrt, math_1. cbv zeta.
  rewrite !is_nan_spec. unfold is_infinity.
  rewrite FloatAxioms.eqb_spec, FloatAxioms.abs_spec, FloatAxioms.sqrt_spec.
  destruct (Prim2SF x) as [s|s| |s m e]; try discriminate; intros _; split; reflexivity.
Qed.

Lemma zero_or_nan_div (x y : float) :
  zero_or_nan x = true -> zero_or_nan y = true -> x / y = nan.
Proof.
  unfold zero_or_nan. intros Hx Hy. apply Prim2SF_inj.
  rewrite FloatAxioms.div_spec.
  destruct (Prim2SF x) as [sx|sx| |sx mx ex], (Prim2SF y) as [sy|sy| |sy my ey];
    try discriminate; reflexivity.
Qed.

End NotANumber.

(** ** rotationMatrixFromVectors *)

Section RotationMatrix.

Context `{Q : PalExt}.
Import AstrometryBase.
Open Scope float_scope.

#[local] Arguments rotation_rows : simpl never.

Lemma eqb_zero (x : float) : (x =? 0) = true -> zero_or_nan x = true.
Proof.
  unfold zero_or_nan. rewrite FloatAxioms.eqb_spec, Prim2SF_zero. unfold SFeqb.
  destruct (Prim2SF x) as [s|s| |s m e]; try reflexivity; try discriminate.
  - now destruct s.
  - simpl. now destruct s.
Qed.

(** With an axis of NaNs every entry of the matrix is NaN. *)
Lemma rotation_rows_nan (sinDot cosDot : float) :
  rotation_rows (nan, nan, nan) sinDot cosDot =
  [[nan; nan; nan]; [nan; nan; nan]; [nan; nan; nan]].
Proof.
  unfold rotation_rows. change (- nan) with nan.
  now rewrite ?mul_nan_l, ?mul_nan_r, ?add_nan_l, ?add_nan_r.
Qed.

(** When every entry of the cross product is a zero or NaN, its norm is a
    zero or NaN, the division leaves an axis of NaNs, and so is the matrix. *)
Lemma rotationMatrixFromVectors_degenerate (v1 v2 : vec3) :
  zero_or_nan (numpy_cross v1 v2).1.1 = true ->
  zero_or_nan (numpy_cross v1 v2).1.2 = true ->
  zero_or_nan (numpy_cross v1 v2).2 = true ->
  rotationMatrixFromVectors v1 v2 =
  (sinDot ← math_sin (numpy_arccos (numpy_dot v1 v2));
   cosDot ← math_cos (numpy_arccos (numpy_dot v1 v2));
   Ok [[nan; nan; nan]; [nan; nan; nan]; [nan; nan; nan]]).
Proof.
  unfold rotationMatrixFromVectors.
  destruct (numpy_cross v1 v2) as [[c0 c1] c2]. simpl. intros H0 H1 H2.
  assert (Hdot : zero_or_nan (c0 * c0 + c1 * c1 + c2 * c2) = true)
    by (repeat apply zero_or_nan_add; now apply zero_or_nan_square).
  destruct (zero_or_nan_sqrt _ Hdot) as [-> Hnorm]. simpl.
  rewrite !zero_or_nan_div by assumption.
  destruct (math_sin _) as [s|e]; simpl; [|reflexivity].
  destruct (math_cos _) as [c|e]; simpl; [|reflexivity].
  now rewrite rotation_rows_nan.
Qed.

End RotationMatrix.

Section RotationMatrixProperties.

Context `{Q : PalExt}.
Import AstrometryBase.
Open Scope float_scope.

(** X1: for two identical vectors [rotationMatrixFromVectors] does not return
    the identity: the cross product divided by its norm is an axis of NaNs,
    and every entry of the returned matrix is NaN, whatever the vector is.
    (The call returns unless [math.sin] or [math.cos] rejects the angle.) *)
Theorem rotationMatrixFromVectors_same_vector (v : vec3) :
  rotationMatrixFromVectors v v =
  (sinDot ← math_sin (numpy_arccos (numpy_dot v v));
   cosDot ← math_cos (numpy_arccos (numpy_dot v v));
   Ok [[nan; nan; nan]; [nan; nan; nan]; [nan; nan; nan]]).
Proof.
  destruct v as [[a0 a1] a2].
  apply rotationMatrixFromVectors_degenerate; simpl.
  - rewrite (float_mul_comm a2 a1). apply float_sub_diag.
  - rewrite (float_mul_comm a0 a2). apply float_sub_diag.
  - rewrite (float_mul_comm a1 a0). apply float_sub_diag.
Qed.

(** X2: whenever the cross product of the two vectors is the zero vector
    (parallel or opposite vectors, or a zero vector), the axis is [0/0] and
    every entry of the returned matrix is NaN. *)
Theorem rotationMatrixFromVectors_zero_cross (v1 v2 : vec3) :
  ((numpy_cross v1 v2).1.1 =? 0) = true ->
  ((numpy_cross v1 v2).1.2 =? 0) = true ->
  ((numpy_cross v1 v2).2 =? 0) = true ->
  rotationMatrixFromVectors v1 v2 =
  (sinDot ← math_sin (numpy_arccos (numpy_dot v1 v2));
   cosDot ← math_cos (numpy_arccos (numpy_dot v1 v2));
   Ok [[nan; nan; nan]; [nan; nan; nan]; [nan; nan; nan]]).
Proof.
  intros H0 H1 H2. apply rotationMatrixFromVectors_degenerate; now apply eqb_zero.
Qed.

End RotationMatrixProperties.

(** ** Loops over two arrays *)

Section PairLoops.

Variable f : float -> float -> float * float.

Lemma star_pair_Ok (a b : list float) (i : nat) (x y : float) :
  a !! i = Some x -> b !! i = Some y -> star_pair f a b i = Ok (f x y).
Proof. intros Ha Hb. unfold star_pair, getitem. now rewrite Ha, Hb. Qed.

Lemma star_pair_total (a b : list float) (i : nat) :
  i < length a -> i < length b -> is_ok (star_pair f a b i) = true.
Proof.
  intros Ha Hb.
  destruct (lookup_lt_is_Some_2 a i Ha) as [x Hx].
  destruct (lookup_lt_is_Some_2 b i Hb) as [y Hy].
  now rewrite (star_pair_Ok a b i x y).
Qed.

Lemma star_pair_short (a b : list float) (i : nat) :
  i < length a -> length b <= i -> star_pair f a b i = Raise IndexError.
Proof.
  intros Ha Hb. unfold star_pair.
  destruct (getitem_lt a i Ha) as [x ->]. simpl. now rewrite getitem_Raise.
Qed.

(** The loop over [range(len(a))] that stores [f(a[i], b[i])] in two arrays
    of zeros, when [b] has an entry for every entry of [a]: the arrays
    returned hold the two components of [f] on the paired entries. *)
Lemma pair_loop_Ok (a b : list float) :
  length a <= length b ->
  for_range (fill_step (star_pair f a b)) 0 (length a)
    (zeros (length a), zeros (length a)) =
  Ok ((zip_with f a b).*1, (zip_with f a b).*2).
Proof.
  intros Hle.
  destruct (for_range_fill_Ok (star_pair f a b) (length a) (zeros (length a))
              (zeros (length a)))
    as (o1 & o2 & Hrun & Hl1 & Hl2 & Hpt); try apply length_zeros.
  { intros i Hi. apply star_pair_total; lia. }
  rewrite Hrun. f_equal.
  assert (Hz : length (zip_with f a b) = length a)
    by (rewrite length_zip_with; lia).
  f_equal; apply list_eq; intros i; rewrite list_lookup_fmap, lookup_zip_with.
  - destruct (a !! i) as [x|] eqn:Hx; simpl.
    + destruct (lookup_lt_is_Some_2 b i) as [y Hy];
        [apply lookup_lt_Some in Hx; lia|].
      rewrite Hy. simpl.
      apply (Hpt i (f x y)); [now apply lookup_lt_Some in Hx|now apply star_pair_Ok].
    + apply lookup_ge_None. apply lookup_ge_None in Hx. lia.
  - destruct (a !! i) as [x|] eqn:Hx; simpl.
    + destruct (lookup_lt_is_Some_2 b i) as [y Hy];
        [apply lookup_lt_Some in Hx; lia|].
      rewrite Hy. simpl.
      apply (Hpt i (f x y)); [now apply lookup_lt_Some in Hx|now apply star_pair_Ok].
    + apply lookup_ge_None. apply lookup_ge_None in Hx. lia.
Qed.

(** When [b] is shorter than [a] the loop raises [IndexError] at index
    [len(b)]. *)
Lemma pair_loop_short (a b : list float) :
  length b < length a ->
  for_range (fill_step (star_pair f a b)) 0 (length a)
    (zeros (length a), zeros (length a)) = Raise IndexError.
Proof.
  intros Hlt.
  apply (for_range_fill_Raise _ (length a) (length b)); try apply length_zeros;
    try assumption.
  - intros i Hi. apply star_pair_total; lia.
  - now apply star_pair_short.
Qed.

End PairLoops.

(** ** The conversions to and from galactic coordinates *)

Section Galactic.

Context `{P : Pal} `{Q : PalExt}.
Import AstrometryBase.

Lemma equatorial_to_galactic_step_fill (ra dec : list float) (i : nat)
    (out : list float * list float) :
  equatorial_to_galactic_step ra dec i out = fill_step (star_pair pal_eqgal ra dec) i out.
Proof.
  destruct out as [gLong gLat].
  unfold equatorial_to_galactic_step, fill_step, star_pair, getitem.
  destruct (ra !! i), (dec !! i); reflexivity.
Qed.

Lemma galactic_to_equatorial_step_fill (gLong gLat : list float) (i : nat)
    (out : list float * list float) :
  galactic_to_equatorial_step gLong gLat i out =
  fill_step (star_pair pal_galeq gLong gLat) i out.
Proof.
  destruct out as [ra dec].
  unfold galactic_to_equatorial_step, fill_step, star_pair, getitem.
  destruct (gLong !! i), (gLat !! i); reflexivity.
Qed.

Lemma galactic_coords_step_fill (ra dec : list float) (i : nat)
    (out : list float * list float) :
  galactic_coords_step ra dec i out = fill_step (star_pair pal_eqgal ra dec) i out.
Proof.
  destruct out as [glon glat].
  unfold galactic_coords_step, fill_step, star_pair, getitem.
  destruct (ra !! i), (dec !! i); reflexivity.
Qed.

Lemma equatorialToGalactic_loop (ra dec : list float) :
  equatorialToGalactic ra dec =
  for_range (fill_step (star_pair pal_eqgal ra dec)) 0 (length ra)
    (zeros (length ra), zeros (length ra)).
Proof.
  unfold equatorialToGalactic. apply for_range_ext.
  intros. apply equatorial_to_galactic_step_fill.
Qed.

Lemma galacticToEquatorial_loop (gLong gLat : list float) :
  galacticToEquatorial gLong gLat =
  for_range (fill_step (star_pair pal_galeq gLong gLat)) 0 (length gLong)
    (zeros (length gLong), zeros (length gLong)).
Proof.
  unfold galacticToEquatorial. rewrite length_zeros. apply for_range_ext.
  intros. apply galactic_to_equatorial_step_fill.
Qed.

Lemma get_galactic_coords_loop (self : Catalog) :
  get_galactic_coords self =
  for_range (fill_step (star_pair pal_eqgal (raJ2000 self) (decJ2000 self))) 0
    (length (raJ2000 self))
    (zeros (length (raJ2000 self)), zeros (length (raJ2000 self))).
Proof.
  unfold get_galactic_coords. apply for_range_ext.
  intros. apply galactic_coords_step_fill.
Qed.

(** The entries of two arrays that a conversion and its inverse give back. *)
Lemma zip_with_round_trip (f g : float -> float -> float * float) (a b : list float) :
  length a <= length b ->
  (forall i x y, a !! i = Some x -> b !! i = Some y -> g (f x y).1 (f x y).2 = (x, y)) ->
  zip_with g (zip_with f a b).*1 (zip_with f a b).*2 = zip a (take (length a) b).
Proof.
  intros Hle Hinv. apply list_eq. intros i.
  rewrite lookup_zip_with, (lookup_zip_with pair), !list_lookup_fmap, lookup_zip_with.
  destruct (a !! i) as [x|] eqn:Hx; simpl; [|reflexivity].
  pose proof (lookup_lt_Some _ _ _ Hx) as Hi.
  rewrite lookup_take_lt by exact Hi.
  destruct (b !! i) as [y|] eqn:Hy; simpl; [|reflexivity].
  now rewrite (Hinv i x y Hx Hy).
Qed.

End Galactic.

Section GalacticProperties.

Context `{P : Pal} `{Q : PalExt}.
Import AstrometryBase.

(** X3: [equatorialToGalactic] reads [dec[i]] for every index of [ra]: when
    [dec] has an entry for each of them it returns two arrays of [len(ra)]
    entries, the components of [pal.eqgal(ra[i], dec[i])], and entries of
    [dec] past [len(ra)] are ignored; when [dec] is shorter it raises
    [IndexError]. *)
Theorem equatorialToGalactic_spec (ra dec : list float) :
  (length ra <= length dec ->
   equatorialToGalactic ra dec =
   Ok ((zip_with pal_eqgal ra dec).*1, (zip_with pal_eqgal ra dec).*2)) /\
  (length dec < length ra -> equatorialToGalactic ra dec = Raise IndexError).
Proof.
  rewrite equatorialToGalactic_loop. split; intros H.
  - now apply pair_loop_Ok.
  - now apply pair_loop_short.
Qed.

(** X4: [galacticToEquatorial] returns the components of
    [pal.galeq(gLong[i], gLat[i])] for every index of [gLong] when [gLat] has
    an entry for each of them, and raises [IndexError] when [gLat] is
    shorter. *)
Theorem galacticToEquatorial_spec (gLong gLat : list float) :
  (length gLong <= length gLat ->
   galacticToEquatorial gLong gLat =
   Ok ((zip_with pal_galeq gLong gLat).*1, (zip_with pal_galeq gLong gLat).*2)) /\
  (length gLat < length gLong -> galacticToEquatorial gLong gLat = Raise IndexError).
Proof.
  rewrite galacticToEquatorial_loop. split; intros H.
  - now apply pair_loop_Ok.
  - now apply pair_loop_short.
Qed.


(** X6: the getter [get_galactic_coords] returns what [equatorialToGalactic]
    returns (or raises) on the catalog columns [raJ2000] and [decJ2000]: on
    columns of equal length, the components of [pal.eqgal] for every row. *)
Theorem get_galactic_coords_columns (self : Catalog) :
  get_galactic_coords self = equatorialToGalactic (raJ2000 self) (decJ2000 self) /\
  (length (raJ2000 self) = length (decJ2000 self) ->
   get_galactic_coords self =
   Ok ((zip_with pal_eqgal (raJ2000 self) (decJ2000 self)).*1,
       (zip_with pal_eqgal (raJ2000 self) (decJ2000 self)).*2)).
Proof.
  rewrite get_galactic_coords_loop, equatorialToGalactic_loop.
  split; [reflexivity|]. intros H. apply pair_loop_Ok. lia.
Qed.

End GalacticProperties.

(** ** get_skyToFocalPlane *)

Section FocalPlane.

Context `{P : Pal} `{Q : PalExt}.
Import AstrometryBase.
Variable self : Catalog.

(** On the two one-entry lists the two corrections never raise. *)
Lemma tangent_point_one (RA Dec : float) :
  tangent_point self [RA] [Dec] =
  Ok ([(true_pointing self RA Dec).1], [(true_pointing self RA Dec).2]).
Proof. reflexivity. Qed.

Lemma sky_to_focal_step_fill (ra_in dec_in : list float) (raz decz theta : float)
    (i : nat) (out : list float * list float) :
  sky_to_focal_step ra_in dec_in [raz] [decz] theta i out =
  fill_step (focal_star ra_in dec_in raz decz theta) i out.
Proof.
  destruct out as [x_out y_out].
  unfold sky_to_focal_step, fill_step, focal_star, rotate, getitem.
  destruct (ra_in !! i); simpl; [|reflexivity].
  destruct (dec_in !! i); simpl; [|reflexivity].
  destruct (pal_ds2tp _ _ _ _) as [[x y]|e]; reflexivity.
Qed.

(** With the three keys in the dictionary, the getter is the loop over the
    stars around the tangent point of the pointing. *)
Lemma get_skyToFocalPlane_loop (ra_in dec_in : list float) (metadata : gmap string float)
    (theta RA Dec : float) :
  metadata !! "Opsim_rotskypos" = Some theta ->
  metadata !! "Unrefracted_RA" = Some RA ->
  metadata !! "Unrefracted_Dec" = Some Dec ->
  get_skyToFocalPlane self ra_in dec_in metadata =
  Found (for_range (fill_step (focal_star ra_in dec_in (true_pointing self RA Dec).1
                                 (true_pointing self RA Dec).2 theta))
           0 (length ra_in) (zeros (length ra_in), zeros (length ra_in))).
Proof.
  intros Ht Hr Hd. unfold get_skyToFocalPlane, dict_getitem. rewrite Ht, Hr, Hd.
  rewrite tangent_point_one. f_equal.
  apply for_range_ext. intros. apply sky_to_focal_step_fill.
Qed.

End FocalPlane.

Section FocalPlaneProperties.

Context `{P : Pal} `{Q : PalExt}.
Import AstrometryBase.
Variable self : Catalog.

(** X7: with the three keys in the metadata, a [decObserved] entry for every
    [raObserved] entry and stars that [pal.ds2tp] can project,
    [get_skyToFocalPlane] returns two arrays with one entry per star: the
    tangent-plane coordinates of the star about the corrected pointing, turned
    by the angle [Opsim_rotskypos].  Correcting the pointing never raises. *)
Theorem get_skyToFocalPlane_values (ra_in dec_in : list float)
    (metadata : gmap string float) (theta RA Dec : float) :
  metadata !! "Opsim_rotskypos" = Some theta ->
  metadata !! "Unrefracted_RA" = Some RA ->
  metadata !! "Unrefracted_Dec" = Some Dec ->
  length ra_in <= length dec_in ->
  (forall i r d, ra_in !! i = Some r -> dec_in !! i = Some d ->
     is_ok (pal_ds2tp r d (true_pointing self RA Dec).1 (true_pointing self RA Dec).2) = true) ->
  exists x_out y_out,
    get_skyToFocalPlane self ra_in dec_in metadata = Found (Ok (x_out, y_out)) /\
    length x_out = length ra_in /\ length y_out = length ra_in /\
    forall i r d x y, ra_in !! i = Some r -> dec_in !! i = Some d ->
      pal_ds2tp r d (true_pointing self RA Dec).1 (true_pointing self RA Dec).2 = Ok (x, y) ->
      x_out !! i = Some (x * numpy_cos theta - y * numpy_sin theta)%float /\
      y_out !! i = Some (x * numpy_sin theta + y * numpy_cos theta)%float.
Proof.
  intros Ht Hr Hd Hle Hproj.
  rewrite (get_skyToFocalPlane_loop self ra_in dec_in metadata theta RA Dec Ht Hr Hd).
  set (g := focal_star _ _ _ _ _).
  destruct (for_range_fill_Ok g (length ra_in) (zeros (length ra_in))
              (zeros (length ra_in)))
    as (x_out & y_out & Hrun & Hl1 & Hl2 & Hpt); try apply length_zeros.
  { intros i Hi. subst g. unfold focal_star, getitem.
    destruct (lookup_lt_is_Some_2 ra_in i Hi) as [r Hir].
    destruct (lookup_lt_is_Some_2 dec_in i ltac:(lia)) as [d Hid].
    rewrite Hir, Hid. cbn [mbind result_bind].
    specialize (Hproj i r d Hir Hid).
    now destruct (pal_ds2tp _ _ _ _). }
  exists x_out, y_out. rewrite Hrun.
  split; [reflexivity|]. split; [exact Hl1|]. split; [exact Hl2|].
  intros i r d x y Hir Hid Hxy.
  apply (Hpt i (rotate theta (x, y))); [now apply lookup_lt_Some in Hir|].
  subst g. unfold focal_star, getitem. now rewrite Hir, Hid; cbn [mbind result_bind]; rewrite Hxy.
Qed.

(** X8: [get_skyToFocalPlane] raises [KeyError] exactly when one of the keys
    [Opsim_rotskypos], [Unrefracted_RA], [Unrefracted_Dec] is missing from the
    metadata, with the first missing one in that order, whatever the columns
    hold: the dictionary is read before any star is looked at. *)
Theorem get_skyToFocalPlane_KeyError (ra_in dec_in : list float)
    (metadata : gmap string float) (k : string) :
  get_skyToFocalPlane self ra_in dec_in metadata = KeyError k <->
  find (fun key => negb (has_key metadata key))
    ["Opsim_rotskypos"; "Unrefracted_RA"; "Unrefracted_Dec"] = Some k.
Proof.
  unfold get_skyToFocalPlane, dict_getitem, has_key. simpl.
  destruct (metadata !! "Opsim_rotskypos"); simpl; [|split; intros H; now inversion H].
  destruct (metadata !! "Unrefracted_RA"); simpl; [|split; intros H; now inversion H].
  destruct (metadata !! "Unrefracted_Dec"); simpl; split; intros H; now inversion H.
Qed.

(** X9: a failing star ends the call and the stars projected before it are
    lost.  When every star before index [j] has a [decObserved] entry and is
    projected, a [decObserved] column that ends at [j] gives [IndexError], and
    a star [j] that [pal.ds2tp] rejects gives the [ValueError] of
    [pal.ds2tp]. *)
Theorem get_skyToFocalPlane_first_failure (ra_in dec_in : list float)
    (metadata : gmap string float) (theta RA Dec : float) (j : nat) (r : float) :
  metadata !! "Opsim_rotskypos" = Some theta ->
  metadata !! "Unrefracted_RA" = Some RA ->
  metadata !! "Unrefracted_Dec" = Some Dec ->
  ra_in !! j = Some r ->
  (forall i ri, i < j -> ra_in !! i = Some ri ->
     exists di, dec_in !! i = Some di /\
       is_ok (pal_ds2tp ri di (true_pointing self RA Dec).1
                (true_pointing self RA Dec).2) = true) ->
  (dec_in !! j = None ->
   get_skyToFocalPlane self ra_in dec_in metadata = Found (Raise IndexError)) /\
  (forall d e, dec_in !! j = Some d ->
     pal_ds2tp r d (true_pointing self RA Dec).1 (true_pointing self RA Dec).2 = Raise e ->
     get_skyToFocalPlane self ra_in dec_in metadata = Found (Raise e)).
Proof.
  intros Ht Hr Hd Hj Hbefore.
  rewrite (get_skyToFocalPlane_loop self ra_in dec_in metadata theta RA Dec Ht Hr Hd).
  assert (Hraise : forall e,
            focal_star ra_in dec_in (true_pointing self RA Dec).1
              (true_pointing self RA Dec).2 theta j = Raise e ->
            for_range (fill_step (focal_star ra_in dec_in (true_pointing self RA Dec).1
                                    (true_pointing self RA Dec).2 theta))
              0 (length ra_in) (zeros (length ra_in), zeros (length ra_in)) = Raise e).
  { intros e He.
    apply (for_range_fill_Raise _ (length ra_in) j); try apply length_zeros.
    - now apply lookup_lt_Some in Hj.
    - intros i Hi.
      destruct (lookup_lt_is_Some_2 ra_in i) as [ri Hri];
        [apply lookup_lt_Some in Hj; lia|].
      destruct (Hbefore i ri Hi Hri) as (di & Hdi & Hok).
      unfold focal_star, getitem. rewrite Hri, Hdi. cbn [mbind result_bind].
      now destruct (pal_ds2tp _ _ _ _).
    - exact He. }
  split.
  - intros Hdj. f_equal. apply Hraise. unfold focal_star, getitem. now rewrite Hj, Hdj.
  - intros d e Hdj E. f_equal. apply Hraise. unfold focal_star, getitem.
    now rewrite Hj, Hdj; cbn [mbind result_bind]; rewrite E.
Qed.

End FocalPlaneProperties.

(** ** correctCoordinates and the getters of the two mixins *)

Section Coordinates.

Context `{P : Pal}.
Import AstrometryBase.
Variable self : Catalog.

Lemma collect_ext {A : Type} (g g' : nat -> result A) (start count : nat) :
  (forall i, start <= i < start + count -> g i = g' i) ->
  collect g start count = collect g' start count.
Proof.
  revert start. induction count as [|k IH]; intros start Hg; simpl; [reflexivity|].
  rewrite (Hg start) by lia. rewrite (IH (S start)); [reflexivity|].
  intros i Hi. apply Hg. lia.
Qed.

(** A star none of whose four entries exceeds the tolerance goes through
    [pal.mapqkz]. *)
Lemma apparent_place_at_rest (r d a b p v : float) (prms : mappa_params) :
  exceeds Const.pm_tol a = false -> exceeds Const.pm_tol b = false ->
  exceeds Const.pm_tol p = false -> exceeds Const.pm_tol v = false ->
  apparent_place r d a b p v prms = pal_mapqkz r d prms.
Proof. intros Ha Hb Hp Hv. unfold apparent_place. now rewrite Ha, Hb, Hp, Hv. Qed.

(** The arrays [scale] returns. *)
Lemma lookup_scale (k : float) (a : list float) (i : nat) (x : float) :
  a !! i = Some x -> scale k a !! i = Some (x * k)%float.
Proof. intros H. unfold scale. now rewrite list_lookup_fmap, H. Qed.

Lemma length_scale (k : float) (a : list float) : length (scale k a) = length a.
Proof. apply length_fmap. Qed.

(** The value [correctCoordinates] returns for one star. *)
Lemma correctCoordinates_Ok (pm_ra pm_dec parallax v_rad : option (list float))
    (includeRefraction inDegrees : bool) :
  let ra := raJ2000 self in
  let dec := decJ2000 self in
  let n := length ra in
  length ra = length dec ->
  n <= length (or_zeros pm_ra n) -> n <= length (or_zeros pm_dec n) ->
  n <= length (or_zeros parallax n) -> n <= length (or_zeros v_rad n) ->
  exists ra_out dec_out,
    correctCoordinates self pm_ra pm_dec parallax v_rad includeRefraction inDegrees =
      Ok (ra_out, dec_out) /\
    length ra_out = n /\ length dec_out = n /\
    forall i r d a b p v,
      ra !! i = Some r -> dec !! i = Some d ->
      or_zeros pm_ra n !! i = Some a -> or_zeros pm_dec n !! i = Some b ->
      or_zeros parallax n !! i = Some p -> or_zeros v_rad n !! i = Some v ->
      let m := apparent_place r d a b p v
                 (pal_mappa (db_obj_epoch self) (obs_metadata_mjd self)) in
      let o := pal_aopqk m.1 m.2
                 (observed_params self (obs_metadata_mjd self) includeRefraction 5000) in
      ra_out !! i =
        Some (if inDegrees then aop_4 o * Const.degPerRadian else aop_4 o)%float /\
      dec_out !! i =
        Some (if inDegrees then aop_3 o * Const.degPerRadian else aop_3 o)%float.
Proof.
  intros ra dec n Hlen Ha Hb Hp Hv.
  destruct (applyMeanApparentPlace_Ok ra dec pm_ra pm_dec parallax v_rad
              (db_obj_epoch self) (obs_metadata_mjd self) Hlen Ha Hb Hp Hv)
    as (ra_app & dec_app & Happ & Hla & Hld & Hptapp).
  destruct (applyMeanObservedPlace_Ok self ra_app dec_app (obs_metadata_mjd self)
              includeRefraction false 5000 ltac:(lia))
    as (o & ra_obs & dec_obs & Hrun & Hproj & Hl1 & Hl2 & Hptobs).
  destruct (applyMeanObservedPlace_shape self _ _ _ _ _ _ _ Hrun) as (r' & d' & ->).
  simpl in Hproj. inversion Hproj; subst r' d'.
  exists (if inDegrees then scale Const.degPerRadian ra_obs else ra_obs),
         (if inDegrees then scale Const.degPerRadian dec_obs else dec_obs).
  split; [|split; [|split]].
  - unfold correctCoordinates. fold ra dec. rewrite Happ. simpl. rewrite Hrun. simpl.
    now destruct inDegrees.
  - destruct inDegrees; rewrite ?length_scale; subst n; lia.
  - destruct inDegrees; rewrite ?length_scale; subst n; lia.
  - intros i r d a b p v Hr Hd Hia Hib Hip Hiv m o.
    destruct (Hptapp i r d a b p v Hr Hd Hia Hib Hip Hiv) as [Hra Hdec].
    destruct (Hptobs i _ _ Hra Hdec) as [Hro Hdo].
    destruct inDegrees.
    + split; apply lookup_scale; assumption.
    + split; assumption.
Qed.

(** Columns at rest are as good as no columns. *)
Lemma applyMeanApparentPlace_at_rest (ra dec pm_ra pm_dec parallax v_rad : list float)
    (Epoch0 MJD : float) :
  length ra <= length pm_ra -> length ra <= length pm_dec ->
  length ra <= length parallax -> length ra <= length v_rad ->
  Forall (fun x => exceeds Const.pm_tol x = false) pm_ra ->
  Forall (fun x => exceeds Const.pm_tol x = false) pm_dec ->
  Forall (fun x => exceeds Const.pm_tol x = false) parallax ->
  Forall (fun x => exceeds Const.pm_tol x = false) v_rad ->
  applyMeanApparentPlace ra dec (Some pm_ra) (Some pm_dec) (Some parallax) (Some v_rad)
    Epoch0 MJD =
  applyMeanApparentPlace ra dec None None None None Epoch0 MJD.
Proof.
  intros Ha Hb Hp Hv Fa Fb Fp Fv.
  destruct (Nat.eq_dec (length ra) (length dec)) as [Hlen|Hne].
  - rewrite !applyMeanApparentPlace_collect by exact Hlen. f_equal.
    apply collect_ext. intros i Hi. simpl in Hi. simpl or_zeros.
    destruct (lookup_lt_is_Some_2 ra i ltac:(lia)) as [r Hr].
    destruct (lookup_lt_is_Some_2 dec i ltac:(lia)) as [d Hd].
    destruct (lookup_lt_is_Some_2 pm_ra i ltac:(lia)) as [a Hia].
    destruct (lookup_lt_is_Some_2 pm_dec i ltac:(lia)) as [b Hib].
    destruct (lookup_lt_is_Some_2 parallax i ltac:(lia)) as [p Hip].
    destruct (lookup_lt_is_Some_2 v_rad i ltac:(lia)) as [v Hiv].
    rewrite (apparent_star_Ok _ _ _ _ _ _ _ _ _ _ _ _ _ _ Hr Hd Hia Hib Hip Hiv).
    rewrite (apparent_star_Ok _ _ _ _ _ _ _ _ r d 0%float 0%float 0%float 0%float Hr Hd)
      by (apply lookup_zeros; lia).
    f_equal. rewrite !apparent_place_at_rest; try reflexivity.
    + exact (proj1 (Forall_lookup _ _) Fa i a Hia).
    + exact (proj1 (Forall_lookup _ _) Fb i b Hib).
    + exact (proj1 (Forall_lookup _ _) Fp i p Hip).
    + exact (proj1 (Forall_lookup _ _) Fv i v Hiv).
  - now rewrite !applyMeanApparentPlace_mismatch by exact Hne.
Qed.

(** An optional array that is passed and ends before [ra] does. *)
Lemma applyMeanApparentPlace_short (ra dec : list float)
    (pm_ra pm_dec parallax v_rad : option (list float)) (Epoch0 MJD : float) :
  length ra = length dec ->
  (length (or_zeros pm_ra (length ra)) < length ra \/
   length (or_zeros pm_dec (length ra)) < length ra \/
   length (or_zeros parallax (length ra)) < length ra \/
   length (or_zeros v_rad (length ra)) < length ra) ->
  applyMeanApparentPlace ra dec pm_ra pm_dec parallax v_rad Epoch0 MJD = Raise IndexError.
Proof.
  intros Hlen Hshort.
  destruct (applyMeanApparentPlace ra dec pm_ra pm_dec parallax v_rad Epoch0 MJD)
    as [[raOut decOut]|e] eqn:E.
  - exfalso. rewrite applyMeanApparentPlace_collect in E by exact Hlen.
    destruct (collect _ 0 (length ra)) as [vs|e] eqn:Ec; simpl in E; [|discriminate].
    assert (Hall : forall i, i < length ra ->
              is_ok (apparent_star ra dec (or_zeros pm_ra (length ra))
                       (or_zeros pm_dec (length ra)) (or_zeros parallax (length ra))
                       (or_zeros v_rad (length ra)) (pal_mappa Epoch0 MJD) i) = true).
    { intros i Hi. destruct (collect_lookup _ _ _ _ i Ec Hi) as [w [Hw _]].
      simpl in Hw. now rewrite Hw. }
    assert (Hbad : forall (x : list float) i, length x <= i -> x !! i = None)
      by (intros x i; apply lookup_ge_None_2).
    destruct Hshort as [H|[H|[H|H]]];
      specialize (Hall _ H); unfold apparent_star, getitem in Hall;
      rewrite (Hbad _ _ (Nat.le_refl _)) in Hall;
      repeat match type of Hall with
             | context [match ?x !! ?i with _ => _ end] => destruct (x !! i); simpl in Hall
             end; discriminate.
  - f_equal. now apply (applyMeanApparentPlace_Raise ra dec pm_ra pm_dec parallax v_rad
                          Epoch0 MJD).
Qed.

End Coordinates.

Section CoordinatesProperties.

Context `{P : Pal}.
Import AstrometryBase.
Variable self : Catalog.


(** X11: the getters of [AstrometryGalaxies].  On columns of equal length
    [get_observedCoordinates] and [get_trimCoordinates] return, in degrees,
    the observed place of the [pal.mapqkz] place of every row, with and
    without refraction; [pal.mapqk] is never called.  On columns of different
    lengths both raise the [ValueError] of [applyMeanApparentPlace]. *)
Theorem galaxies_coordinates (includeRefraction : bool) :
  let getter := if includeRefraction
                then AstrometryGalaxies.get_observedCoordinates self
                else AstrometryGalaxies.get_trimCoordinates self in
  (length (raJ2000 self) = length (decJ2000 self) ->
   exists ra_out dec_out,
     getter = Ok (ra_out, dec_out) /\
     length ra_out = length (raJ2000 self) /\ length dec_out = length (raJ2000 self) /\
     forall i r d,
       raJ2000 self !! i = Some r -> decJ2000 self !! i = Some d ->
       let m := pal_mapqkz r d (pal_mappa (db_obj_epoch self) (obs_metadata_mjd self)) in
       let o := pal_aopqk m.1 m.2
                  (observed_params self (obs_metadata_mjd self) includeRefraction 5000) in
       ra_out !! i = Some (aop_4 o * Const.degPerRadian)%float /\
       dec_out !! i = Some (aop_3 o * Const.degPerRadian)%float) /\
  (length (raJ2000 self) <> length (decJ2000 self) ->
   getter = Raise (ValueError (length_mismatch_message (length (raJ2000 self))
                                 (length (decJ2000 self))))).
Proof.
  intros getter.
  assert (Hg : getter = correctCoordinates self None None None None includeRefraction true)
    by (subst getter; now destruct includeRefraction).
  rewrite Hg. split.
  - intros Hlen.
    destruct (correctCoordinates_Ok self None None None None includeRefraction true Hlen)
      as (ra_out & dec_out & Hrun & Hl1 & Hl2 & Hpt);
      try (simpl; rewrite length_zeros; reflexivity).
    exists ra_out, dec_out. split; [exact Hrun|]. split; [exact Hl1|]. split; [exact Hl2|].
    intros i r d Hr Hd.
    apply (Hpt i r d 0%float 0%float 0%float 0%float Hr Hd);
      simpl; apply lookup_zeros; now apply lookup_lt_Some in Hr.
  - intros Hne. unfold correctCoordinates.
    now rewrite applyMeanApparentPlace_mismatch by exact Hne.
Qed.



End CoordinatesProperties.

(** ** applyProperMotion, further *)

Section ProperMotionMore.

Context `{P : Pal}.
Import AstrometryBase.
Variable self : Catalog.

(** No clamped value is below the floor, and clamping twice is clamping
    once. *)
Lemma clamp_floor (x : float) : (clamp x <? Const.min_parallax)%float = false.
Proof.
  unfold clamp. destruct (x <? Const.min_parallax)%float eqn:E; [reflexivity|exact E].
Qed.

Lemma clamp_idem (x : float) : clamp (clamp x) = clamp x.
Proof. unfold clamp at 1. now rewrite clamp_floor. Qed.

Lemma clamp_heap_idem (parallax : loc) (h : heap) :
  clamp_heap parallax (clamp_heap parallax h) = clamp_heap parallax h.
Proof.
  unfold clamp_heap. destruct (h !! parallax) as [arr|] eqn:E.
  - rewrite lookup_insert_eq, insert_insert_eq. f_equal.
    rewrite <- list_fmap_compose. apply list_fmap_ext. intros i x _. apply clamp_idem.
  - now rewrite E.
Qed.

(** The call as a pair, in terms of the clamped heap. *)
Lemma applyProperMotion_pair (ra dec pm_ra pm_dec parallax v_rad : loc)
    (EP0 MJD : float) (h : heap) :
  let h' := clamp_heap parallax h in
  applyProperMotion self ra dec pm_ra pm_dec parallax v_rad EP0 MJD h =
  (h',
   for_range (fill_step (proper_motion_star (deref h' ra) (deref h' dec) (deref h' pm_ra)
                           (deref h' pm_dec) (deref h' parallax) (deref h' v_rad) EP0
                           (pal_epj (obs_metadata_mjd self))))
     0 (length (deref h' ra)) (zeros (length (deref h' ra)), zeros (length (deref h' ra)))).
Proof.
  intros h'.
  pose proof (applyProperMotion_heap self ra dec pm_ra pm_dec parallax v_rad EP0 MJD h) as Hh.
  pose proof (applyProperMotion_result self ra dec pm_ra pm_dec parallax v_rad EP0 MJD h)
    as Hr.
  cbv zeta in Hr. fold h' in Hh, Hr.
  destruct (applyProperMotion _ _ _ _ _ _ _ _ _ _) as [h1 r1]. simpl in Hh, Hr.
  now rewrite Hh, Hr.
Qed.

Lemma proper_motion_star_Raise (ra dec pm_ra pm_dec parallax v_rad : list float)
    (EP0 julianEpoch : float) (i : nat) (e : exn) :
  proper_motion_star ra dec pm_ra pm_dec parallax v_rad EP0 julianEpoch i = Raise e ->
  e = IndexError.
Proof.
  unfold proper_motion_star, getitem.
  destruct (pm_ra !! i); simpl; [|intros H; now inversion H].
  destruct (Const.EPSILON <? abs _)%float; simpl;
    destruct (pm_dec !! i); simpl; try (intros H; now inversion H);
    try destruct (Const.EPSILON <? abs _)%float; simpl;
    destruct (ra !! i); simpl; try (intros H; now inversion H);
    destruct (dec !! i); simpl; try (intros H; now inversion H);
    destruct (parallax !! i); simpl; try (intros H; now inversion H);
    destruct (v_rad !! i); simpl; intros H; now inversion H.
Qed.

(** The star at an index where [dec], [pm_ra] or [pm_dec] has no entry. *)
Lemma proper_motion_star_missing (ra dec pm_ra pm_dec parallax v_rad : list float)
    (EP0 julianEpoch : float) (i : nat) :
  dec !! i = None \/ pm_ra !! i = None \/ pm_dec !! i = None ->
  is_ok (proper_motion_star ra dec pm_ra pm_dec parallax v_rad EP0 julianEpoch i) = false.
Proof.
  intros H. unfold proper_motion_star, getitem.
  destruct (pm_ra !! i) as [a|]; simpl; [|reflexivity].
  destruct (pm_dec !! i) as [b|]; simpl.
  - destruct (dec !! i) as [d|]; simpl.
    + destruct H as [H|[H|H]]; discriminate.
    + destruct (Const.EPSILON <? abs a)%float; simpl;
        try destruct (Const.EPSILON <? abs b)%float; simpl;
        destruct (ra !! i); reflexivity.
  - destruct (Const.EPSILON <? abs a)%float; simpl; [|reflexivity].
    destruct (ra !! i); simpl; [|reflexivity]. destruct (dec !! i); reflexivity.
Qed.

(** A filling loop with a failing turn raises. *)
Lemma for_range_fill_not_Ok {A : Type} (g : nat -> result (A * A)) (n j : nat)
    (a0 b0 : list A) :
  length a0 = n -> length b0 = n -> j < n -> is_ok (g j) = false ->
  exists e i, for_range (fill_step g) 0 n (a0, b0) = Raise e /\ g i = Raise e.
Proof.
  intros Ha Hb Hj Hbad. rewrite for_range_fill by (simpl; lia).
  destruct (collect g 0 n) as [vs|e] eqn:E; simpl.
  - destruct (collect_lookup _ _ _ _ j E Hj) as [w [Hw _]].
    simpl in Hw. rewrite Hw in Hbad. discriminate.
  - destruct (collect_Raise_inv _ _ _ _ E) as [i Hi]. now exists e, i.
Qed.

(** A star whose two proper motions do not exceed [EPSILON], NaN included,
    keeps its place. *)
Lemma proper_motion_star_unmoved (ra dec pm_ra pm_dec parallax v_rad : list float)
    (EP0 julianEpoch : float) (i : nat) (r d a b : float) :
  ra !! i = Some r -> dec !! i = Some d -> pm_ra !! i = Some a -> pm_dec !! i = Some b ->
  (Const.EPSILON <? abs a)%float = false -> (Const.EPSILON <? abs b)%float = false ->
  proper_motion_star ra dec pm_ra pm_dec parallax v_rad EP0 julianEpoch i = Ok (r, d).
Proof.
  intros Hr Hd Ha Hb Hsa Hsb. unfold proper_motion_star, getitem.
  rewrite Ha, Hb, Hr, Hd. simpl. rewrite Hsa. simpl. rewrite Hsb. reflexivity.
Qed.

(** No bound is below the magnitude of NaN. *)
Lemma ltb_abs_nan (tol x : float) : is_nan x = true -> (tol <? abs x)%float = false.
Proof.
  rewrite is_nan_spec, FloatAxioms.ltb_spec, FloatAxioms.abs_spec.
  destruct (Prim2SF x); try discriminate. intros _.
  unfold SFltb. now destruct (Prim2SF tol) as [[]|[]| |[] ? ?].
Qed.

End ProperMotionMore.

Section ProperMotionProperties.

Context `{P : Pal}.
Import AstrometryBase.
Variable self : Catalog.

(** X14: after a call of [applyProperMotion], whether it returned or raised,
    no entry of the caller's [parallax] array is below 0.00045; a NaN entry
    stays NaN. *)
Theorem applyProperMotion_parallax_floor (ra dec pm_ra pm_dec parallax v_rad : loc)
    (EP0 MJD : float) (h : heap) :
  let h' := (applyProperMotion self ra dec pm_ra pm_dec parallax v_rad EP0 MJD h).1 in
  Forall (fun x => (x <? Const.min_parallax)%float = false) (deref h' parallax) /\
  forall i, deref h parallax !! i = Some nan -> deref h' parallax !! i = Some nan.
Proof.
  intros h'. subst h'. rewrite applyProperMotion_heap, deref_clamp_heap.
  destruct (decide (parallax = parallax)) as [_|Hne]; [|contradiction]. split.
  - apply Forall_fmap. apply Forall_forall. intros x _. apply clamp_floor.
  - intros i Hi. now rewrite list_lookup_fmap, Hi.
Qed.

(** X15: a second call of [applyProperMotion] with the same arguments writes
    nothing and returns (or raises) what the first call did: the first call
    left the caller's [parallax] array clamped. *)
Theorem applyProperMotion_twice (ra dec pm_ra pm_dec parallax v_rad : loc)
    (EP0 MJD : float) (h : heap) :
  let first := applyProperMotion self ra dec pm_ra pm_dec parallax v_rad EP0 MJD h in
  applyProperMotion self ra dec pm_ra pm_dec parallax v_rad EP0 MJD first.1 = first.
Proof.
  intros first. subst first.
  rewrite (applyProperMotion_pair self ra dec pm_ra pm_dec parallax v_rad EP0 MJD h).
  cbn [fst]. rewrite applyProperMotion_pair. cbv zeta.
  now rewrite clamp_heap_idem.
Qed.

(** X16: when [dec], [pm_ra] or [pm_dec] ends before [ra] does, the call
    raises [IndexError] and returns no array, and the caller's [parallax]
    array has been clamped all the same: the first loop ran to its end before
    the second one failed. *)
Theorem applyProperMotion_short_array (ra dec pm_ra pm_dec parallax v_rad : loc)
    (EP0 MJD : float) (h : heap) :
  length (deref h dec) < length (deref h ra) \/
  length (deref h pm_ra) < length (deref h ra) \/
  length (deref h pm_dec) < length (deref h ra) ->
  exists h',
    applyProperMotion self ra dec pm_ra pm_dec parallax v_rad EP0 MJD h =
      (h', Raise IndexError) /\
    deref h' parallax = clamp <$> deref h parallax.
Proof.
  intros Hshort. exists (clamp_heap parallax h). split.
  - rewrite applyProperMotion_pair. cbv zeta. f_equal.
    set (h' := clamp_heap parallax h).
    assert (Hlen : forall l, length (deref h' l) = length (deref h l))
      by (intros l; apply length_deref_clamp_heap).
    set (g := proper_motion_star _ _ _ _ _ _ _ _).
    assert (Hbad : exists j, j < length (deref h' ra) /\ is_ok (g j) = false).
    { assert (Hnone : forall (x : list float), x !! length x = None)
        by (intros x; now apply lookup_ge_None_2).
      destruct Hshort as [H|[H|H]].
      - exists (length (deref h' dec)). split; [rewrite !Hlen; lia|].
        subst g. apply proper_motion_star_missing. left. apply Hnone.
      - exists (length (deref h' pm_ra)). split; [rewrite !Hlen; lia|].
        subst g. apply proper_motion_star_missing. right. left. apply Hnone.
      - exists (length (deref h' pm_dec)). split; [rewrite !Hlen; lia|].
        subst g. apply proper_motion_star_missing. right. right. apply Hnone. }
    destruct Hbad as (j & Hj & Hgj).
    destruct (for_range_fill_not_Ok g (length (deref h' ra)) j
                (zeros (length (deref h' ra))) (zeros (length (deref h' ra))))
      as (e & i & Hrun & Hi); try apply length_zeros; try assumption.
    rewrite Hrun. f_equal. subst g. now apply proper_motion_star_Raise in Hi.
  - rewrite deref_clamp_heap. now destruct (decide (parallax = parallax)).
Qed.

(** X17: a star whose [pm_ra] and [pm_dec] entries are both NaN is not handed
    to [pal.pm]: neither magnitude exceeds [EPSILON], and the star is returned
    at the place it has in [ra] and [dec]. *)
Theorem applyProperMotion_nan_motion (ra dec pm_ra pm_dec parallax v_rad : loc)
    (EP0 MJD : float) (h : heap) :
  length (deref h ra) <= length (deref h dec) ->
  length (deref h ra) <= length (deref h pm_ra) ->
  length (deref h ra) <= length (deref h pm_dec) ->
  length (deref h ra) <= length (deref h parallax) ->
  length (deref h ra) <= length (deref h v_rad) ->
  exists h' raOut decOut,
    applyProperMotion self ra dec pm_ra pm_dec parallax v_rad EP0 MJD h =
      (h', Ok (raOut, decOut)) /\
    forall i a b,
      i < length (deref h ra) ->
      deref h' pm_ra !! i = Some a -> deref h' pm_dec !! i = Some b ->
      is_nan a = true -> is_nan b = true ->
      raOut !! i = deref h' ra !! i /\ decOut !! i = deref h' dec !! i.
Proof.
  intros Hd Ha Hb Hp Hv.
  rewrite applyProperMotion_pair. cbv zeta.
  set (h' := clamp_heap parallax h).
  assert (Hlen : forall l, length (deref h' l) = length (deref h l))
    by (intros l; apply length_deref_clamp_heap).
  set (g := proper_motion_star _ _ _ _ _ _ _ _).
  destruct (for_range_fill_Ok g (length (deref h' ra)) (zeros (length (deref h' ra)))
              (zeros (length (deref h' ra))))
    as (raOut & decOut & Hrun & Hl1 & Hl2 & Hpt); try apply length_zeros.
  { intros i Hi. subst g. apply proper_motion_star_total; rewrite ?Hlen in *; lia. }
  exists h', raOut, decOut. rewrite Hrun. split; [reflexivity|].
  intros i a b Hi Hia Hib Hna Hnb.
  destruct (lookup_lt_is_Some_2 (deref h' ra) i ltac:(rewrite Hlen; lia)) as [r Hr].
  destruct (lookup_lt_is_Some_2 (deref h' dec) i ltac:(rewrite Hlen; lia)) as [d Hdd].
  rewrite Hr, Hdd.
  apply (Hpt i (r, d)); [rewrite Hlen; lia|].
  subst g. apply proper_motion_star_unmoved with (a := a) (b := b); try assumption;
    now apply ltb_abs_nan.
Qed.

End ProperMotionProperties.

(** ** applyMeanObservedPlace, further *)

Section ObservedPlaceProperties.

Context `{P : Pal}.
Import AstrometryBase.
Variable self : Catalog.

(** X18: the only exception of [applyMeanObservedPlace] is the [IndexError]
    of a [dec] that ends before [ra] does; and only the first [len(ra)]
    entries of [dec] are read: cutting [dec] to that length changes
    nothing. *)
Theorem applyMeanObservedPlace_reads_prefix (ra dec : list float) (MJD : float)
    (includeRefraction altAzHr : bool) (wavelength : float) :
  (forall e,
     applyMeanObservedPlace self ra dec MJD includeRefraction altAzHr wavelength = Raise e <->
     e = IndexError /\ length dec < length ra) /\
  applyMeanObservedPlace self ra (take (length ra) dec) MJD includeRefraction altAzHr
    wavelength =
  applyMeanObservedPlace self ra dec MJD includeRefraction altAzHr wavelength.
Proof.
  split.
  - intros e. split.
    + intros Hraise.
      destruct (Nat.le_gt_cases (length ra) (length dec)) as [Hle|Hlt].
      * destruct (applyMeanObservedPlace_Ok self ra dec MJD includeRefraction altAzHr
                    wavelength Hle) as (o & _ & _ & Hrun & _).
        rewrite Hrun in Hraise. discriminate.
      * rewrite applyMeanObservedPlace_short_dec in Hraise by exact Hlt.
        inversion Hraise. now split.
    + intros [-> Hlt]. now apply applyMeanObservedPlace_short_dec.
  - unfold applyMeanObservedPlace.
    rewrite (for_range_ext
               (mean_observed_step self ra (take (length ra) dec)
                  (observed_params self MJD includeRefraction wavelength) altAzHr)
               (mean_observed_step self ra dec
                  (observed_params self MJD includeRefraction wavelength) altAzHr));
      [reflexivity|].
    intros i st Hi. unfold mean_observed_step, getitem.
    now rewrite lookup_take_lt by lia.
Qed.

End ObservedPlaceProperties.

(** ** calcLast and equatorialToHorizontal *)

Section ReducedAngles.

#[local] Open Scope Z_scope.

(** Two valid positive numbers of the same magnitude are the same number. *)
Lemma valid_magnitude_inj (m1 : positive) (e1 : Z) (m2 : positive) (e2 : Z) :
  valid_binary (S754_finite false m1 e1) = true ->
  valid_binary (S754_finite false m2 e2) = true ->
  Z.pos m1 * 2 ^ (e1 + 1074) = Z.pos m2 * 2 ^ (e2 + 1074) ->
  m1 = m2 /\ e1 = e2.
Proof.
  intros V1 V2 Hmag.
  pose proof (SFcompare_finite_pos m1 e1 m2 e2 V1 V2) as Hc.
  rewrite Hmag, Z.compare_refl in Hc. unfold SFcompare in Hc.
  destruct (Z.compare_spec e1 e2) as [He|He|He]; try discriminate.
  split; [|exact He].
  inversion Hc as [Hp]. now apply Pos.compare_eq.
Qed.

(** Python's [vx % wx] for [0 <= vx < wx] and a normal [wx]: [vx] itself, a
    negative zero coming back as the positive zero. *)
Lemma float_rem_small (vx wx : float) (my : positive) (ey : Z) :
  Prim2SF wx = S754_finite false my ey -> 2 ^ 52 <= Z.pos my ->
  (0 <=? vx)%float = true -> (vx <? wx)%float = true ->
  float_rem vx wx = Ok (abs vx).
Proof.
  intros Hy Hmy Hge Hlt.
  pose proof (Prim2SF_valid vx) as Vx. pose proof (Prim2SF_valid wx) as Vy.
  rewrite Hy in Vy.
  rewrite FloatAxioms.leb_spec, Prim2SF_zero in Hge.
  rewrite FloatAxioms.ltb_spec, Hy in Hlt.
  unfold float_rem, fmod.
  assert (Hw0 : (wx =? 0)%float = false)
    by (rewrite FloatAxioms.eqb_spec, Hy, Prim2SF_zero; reflexivity).
  assert (Hwneg : (wx <? 0)%float = false)
    by (rewrite FloatAxioms.ltb_spec, Hy, Prim2SF_zero; reflexivity).
  rewrite Hw0, Hy.
  destruct (Prim2SF vx) as [s|s| |sx mx ex] eqn:Ex.
  - (* a zero *)
    destruct (float_rem_zero_branch wx my ey s Hy) as (E1 & E2 & E3).
    cbv zeta in E1, E3. simpl SFfmod. rewrite E1, E2. simpl. f_equal.
    apply Prim2SF_inj. etransitivity; [exact E3|].
    now rewrite FloatAxioms.abs_spec, Ex.
  - destruct s; discriminate.
  - discriminate.
  - destruct sx; [discriminate|].
    unfold SFltb in Hlt. rewrite (SFcompare_finite_pos _ _ _ _ Vx Vy) in Hlt.
    destruct (Z.compare_spec (Z.pos mx * 2 ^ (ex + 1074)) (Z.pos my * 2 ^ (ey + 1074)))
      as [|Hmag|]; try discriminate.
    pose proof (valid_finite _ _ _ Vx) as (Hex & _ & _).
    pose proof (SFfmod_finite false mx ex my ey Vx Vy Hmy) as Hmod.
    pose proof (SFfmod_exact false mx ex false my ey Vx Vy) as [Hexact _].
    unfold SFmagnitude at 2 3 in Hexact.
    rewrite Z.mod_small in Hexact
      by (split; [apply Z.mul_nonneg_nonneg; [lia|apply Z.pow_nonneg; lia]|exact Hmag]).
    assert (Hpos : 0 < Z.pos mx * 2 ^ (ex + 1074))
      by (apply Z.mul_pos_pos; [lia|apply pow2_pos; lia]).
    destruct (SFfmod (S754_finite false mx ex) (S754_finite false my ey))
      as [s|s| |s m e] eqn:Emod; try contradiction.
    + simpl in Hexact. lia.
    + destruct Hmod as (-> & Vr & _ & _). simpl in Hexact.
      destruct (valid_magnitude_inj m e mx ex Vr Vx Hexact) as [-> ->].
      rewrite <- Ex, SF2Prim_Prim2SF.
      assert (Hr0 : (vx =? 0)%float = false)
        by (rewrite FloatAxioms.eqb_spec, Ex, Prim2SF_zero; reflexivity).
      assert (Hrneg : (vx <? 0)%float = false)
        by (rewrite FloatAxioms.ltb_spec, Ex, Prim2SF_zero; reflexivity).
      rewrite Hr0, Hwneg, Hrneg. simpl. f_equal.
      apply Prim2SF_inj. now rewrite FloatAxioms.abs_spec, Ex.
Qed.

(** With the divisor [2*pi] Python's [%] always returns. *)
Lemma float_rem_two_pi (vx : float) : exists D, float_rem vx Const.two_pi = Ok D.
Proof.
  unfold float_rem.
  change (Const.two_pi =? 0)%float with false.
  change (Const.two_pi <? 0)%float with false. cbv iota. simpl xorb.
  destruct (negb _); [destruct (_ <? 0)%float|]; eexists; reflexivity.
Qed.

End ReducedAngles.

Section SiderealTimeProperties.

Context `{P : Pal} `{Q : PalExt}.
Import AstrometryBase.
Variable self : Catalog.

Open Scope float_scope.

(** X19: when the sum [pal.gmsta(mjd, 0.) + long] already lies in
    [0 <= sum < 2*pi], [calcLast] returns it unchanged: the remainder is
    exact.  (A sum of negative zero comes back as the positive zero.) *)
Theorem calcLast_already_reduced (mjd long : float) :
  (0 <=? pal_gmsta mjd 0 + long) = true ->
  (pal_gmsta mjd 0 + long <? 2 * Const.pi) = true ->
  calcLast mjd long = Ok (abs (pal_gmsta mjd 0 + long)).
Proof.
  intros Hge Hlt. rewrite calcLast_float_rem.
  apply (float_rem_small _ Const.two_pi 7074237752028440%positive (-50)%Z);
    [reflexivity|lia|exact Hge|exact Hlt].
Qed.

(** X20: [equatorialToHorizontal] never raises.  It returns the altitude
    first and the azimuth second, entries 1 and 0 of [pal.de2h] at the hour
    angle [calcLast(mjd, self.site.longitude) - ra]; the sidereal time lies
    between 0 and [2*pi] when [pal.gmsta(mjd, 0.)] plus the longitude is
    finite, and is NaN otherwise. *)
Theorem equatorialToHorizontal_total (ra dec mjd : float) :
  exists D,
    calcLast mjd (longitude (site self)) = Ok D /\
    equatorialToHorizontal self ra dec mjd =
      Ok ((pal_de2h (D - ra) dec (latitude (site self))).2,
          (pal_de2h (D - ra) dec (latitude (site self))).1) /\
    (if is_finite (pal_gmsta mjd 0 + longitude (site self))
     then (0 <=? D) = true /\ (D <=? 2 * Const.pi) = true
     else D = nan).
Proof.
  destruct (float_rem_two_pi (pal_gmsta mjd 0 + longitude (site self))) as [D HD].
  rewrite <- calcLast_float_rem in HD.
  exists D. split; [exact HD|]. split.
  - unfold equatorialToHorizontal. now rewrite HD.
  - destruct (is_finite _) eqn:Hfin.
    + rewrite calcLast_float_rem in HD.
      destruct (float_rem_range _ Const.two_pi 7074237752028440%positive (-50)%Z
                  ltac:(reflexivity) ltac:(lia) ltac:(lia) Hfin)
        as (r & Hr & H0 & H1 & _).
      rewrite Hr in HD. inversion HD; subst r. now split.
    + rewrite (calcLast_not_finite _ _ Hfin) in HD. now inversion HD.
Qed.

End SiderealTimeProperties.

(** ** paralacticAngle *)

Section NoNaN.

#[local] Open Scope Z_scope.

(** Rounding a mantissa that is not negative never gives NaN. *)
Lemma binary_round_aux_not_nan (s : bool) (mx ex : Z) (l : location) :
  0 <= mx -> binary_round_aux prec emax s mx ex l <> S754_nan.
Proof.
  intros Hmx. unfold binary_round_aux.
  destruct (shr_fexp_spec mx ex l Hmx) as [Hm1 _].
  destruct (shr_fexp prec emax mx ex l) as [mrs1 e1]. simpl in Hm1.
  pose proof (round_nearest_even_bounds (shr_m mrs1) (loc_of_shr_record mrs1)) as Hrne.
  assert (Hm1pos : 0 <= shr_m mrs1)
    by (rewrite Hm1; apply Z.div_pos; [lia|apply pow2_pos; lia]).
  set (m2 := round_nearest_even (shr_m mrs1) (loc_of_shr_record mrs1)) in *.
  destruct (shr_fexp_spec m2 e1 loc_Exact ltac:(lia)) as [Hm3 _].
  destruct (shr_fexp prec emax m2 e1 loc_Exact) as [mrs2 e2]. simpl in Hm3.
  assert (Hm3pos : 0 <= shr_m mrs2)
    by (rewrite Hm3; apply Z.div_pos; [lia|apply pow2_pos; lia]).
  destruct (shr_m mrs2) as [|m|m]; [discriminate| |lia].
  destruct (e2 <=? emax - prec); discriminate.
Qed.

Lemma SFmul_finite_not_nan (x y : spec_float) :
  match x with S754_zero _ | S754_finite _ _ _ => True | _ => False end ->
  match y with S754_zero _ | S754_finite _ _ _ => True | _ => False end ->
  SFmul prec emax x y <> S754_nan.
Proof.
  destruct x as [sx|sx| |sx mx ex], y as [sy|sy| |sy my ey]; try contradiction;
    intros _ _; try discriminate.
  simpl. apply binary_round_aux_not_nan. lia.
Qed.

Lemma SFdiv_finite_not_nan (x y : spec_float) :
  x <> S754_nan ->
  match y with S754_finite _ _ _ => True | _ => False end ->
  SFdiv prec emax x y <> S754_nan.
Proof.
  destruct x as [sx|sx| |sx mx ex], y as [sy|sy| |sy my ey]; try contradiction;
    intros Hx _; try discriminate.
  unfold SFdiv, SFdiv_core_binary.
  set (m' := match _ with Z.pos _ => Z.shiftl (Z.pos mx) _ | 0 => Z.pos mx | _ => 0 end).
  assert (Hm' : 0 <= m').
  { subst m'. destruct (_ - _ - _); try lia. apply Z.shiftl_nonneg. lia. }
  pose proof (Z.div_pos m' (Z.pos my) Hm' ltac:(lia)) as Hq.
  unfold Z.div in Hq.
  destruct (Z.div_eucl m' (Z.pos my)) as [q r]. simpl in Hq.
  now apply binary_round_aux_not_nan.
Qed.

End NoNaN.

Section ParalacticAngle.

Context `{P : Pal} `{Q : PalExt}.
Import AstrometryBase.
Variable self : Catalog.

Open Scope float_scope.

(** What [math_1] lets through: a number for a number, and a finite number
    for a finite argument. *)
Lemma math_1_Ok (func : float -> float) (x r : float) :
  math_1 func x = Ok r ->
  (is_nan x = false -> is_nan r = false) /\ (is_finite x = true -> is_finite r = true).
Proof.
  unfold math_1. cbv zeta.
  destruct (is_nan (func x)) eqn:En; simpl.
  - destruct (is_nan x) eqn:Ex; simpl; [|discriminate].
    assert (Hfx : is_finite x = false) by (unfold is_finite; now rewrite Ex).
    rewrite Hfx, andb_false_r. intros H. inversion H; subst r.
    split; intros; discriminate.
  - destruct (is_infinity (func x)) eqn:Ei; simpl.
    + destruct (is_finite x) eqn:Ef; [discriminate|].
      intros H. inversion H; subst r. split; [intros; exact En|intros; discriminate].
    + intros H. inversion H; subst r. split; [intros; exact En|].
      intros _. unfold is_finite. now rewrite En, Ei.
Qed.

Lemma math_1_Raise (func : float -> float) (x : float) (e : exn) :
  math_1 func x = Raise e -> e = ValueError "math domain error".
Proof.
  unfold math_1. cbv zeta.
  destruct (_ && _); [intros H; now inversion H|].
  destruct (_ && _); [intros H; now inversion H|discriminate].
Qed.

Lemma is_finite_mul_not_nan (x y : float) :
  is_finite x = true -> is_finite y = true -> is_nan (x * y) = false.
Proof.
  rewrite !is_finite_spec, is_nan_spec, FloatAxioms.mul_spec. intros Hx Hy.
  pose proof (SFmul_finite_not_nan (Prim2SF x) (Prim2SF y)) as H.
  unfold SF64mul.
  destruct (SFmul prec emax (Prim2SF x) (Prim2SF y)); try reflexivity.
  exfalso. apply H; [| |reflexivity].
  - now destruct (Prim2SF x).
  - now destruct (Prim2SF y).
Qed.

Lemma div_finite_not_nan (x y : float) :
  is_nan x = false -> is_finite y = true -> (y =? 0) = false -> is_nan (x / y) = false.
Proof.
  rewrite is_finite_spec, !is_nan_spec, FloatAxioms.eqb_spec, FloatAxioms.div_spec,
    Prim2SF_zero.
  intros Hx Hy Hy0.
  pose proof (SFdiv_finite_not_nan (Prim2SF x) (Prim2SF y)) as H.
  unfold SF64div.
  destruct (SFdiv prec emax (Prim2SF x) (Prim2SF y)); try reflexivity.
  exfalso. apply H; [| |reflexivity].
  - now destruct (Prim2SF x).
  - destruct (Prim2SF y) as [s|s| |s m e]; try discriminate; try exact I;
      now destruct s.
Qed.

End ParalacticAngle.

Section ParalacticAngleProperties.

Context `{P : Pal} `{Q : PalExt}.
Import AstrometryBase.
Variable self : Catalog.

Open Scope float_scope.

(** X21: for a finite azimuth, declination and site latitude,
    [paralacticAngle] never returns NaN.  It returns a number, or raises
    [ZeroDivisionError] (a zero [math.cos(dec)]) or the [ValueError] of
    [math.sin], [math.cos] or [math.asin] (a sine outside the domain of the
    arc sine). *)
Theorem paralacticAngle_never_nan (az dec : float) :
  is_finite az = true -> is_finite dec = true ->
  is_finite (latitude (site self)) = true ->
  match paralacticAngle self az dec with
  | Ok r => is_nan r = false
  | Raise e =>
      e = ValueError "math domain error" \/
      e = ZeroDivisionError "float division by zero"
  end.
Proof.
  intros Haz Hdec Hlat. unfold paralacticAngle, math_sin, math_cos, math_asin.
  destruct (math_1 libm_sin az) as [s|e] eqn:Es; simpl;
    [|left; now apply (math_1_Raise _ _ _ Es)].
  destruct (math_1 libm_cos (latitude (site self))) as [c|e] eqn:Ec; simpl;
    [|left; now apply (math_1_Raise _ _ _ Ec)].
  destruct (math_1 libm_cos dec) as [d|e] eqn:Ed; simpl;
    [|left; now apply (math_1_Raise _ _ _ Ed)].
  unfold float_div. destruct (d =? 0) eqn:Ed0; simpl; [now right|].
  destruct (math_1 libm_asin (s * c / d)) as [r|e] eqn:Er;
    [|left; now apply (math_1_Raise _ _ _ Er)].
  apply (math_1_Ok _ _ _ Er).
  apply div_finite_not_nan; [|now apply (math_1_Ok _ _ _ Ed)|exact Ed0].
  apply is_finite_mul_not_nan; [now apply (math_1_Ok _ _ _ Es)|now apply (math_1_Ok _ _ _ Ec)].
Qed.

End ParalacticAngleProperties.

(** ** The further statements at concrete inputs *)

Section MoreWitnesses.

Import AstrometryBase PalStub PalExtStub.
Open Scope float_scope.

#[local] Existing Instance stub.
#[local] Existing Instance stub_ext.

Lemma rotationMatrixFromVectors_zero_cross_witness :
  numpy_cross (1, 0, 0) (-2, 0, 0) = (0, -0, 0) /\
  rotationMatrixFromVectors (1, 0, 0) (-2, 0, 0) =
  Ok [[nan; nan; nan]; [nan; nan; nan]; [nan; nan; nan]].
Proof.
  split; [reflexivity|].
  rewrite (rotationMatrixFromVectors_zero_cross (1, 0, 0) (-2, 0, 0)); reflexivity.
Defined.


Lemma get_skyToFocalPlane_values_witness :
  exists x_out y_out,
    get_skyToFocalPlane catalog0 [1; 2] [0.5; 0.25] metadata0 = Found (Ok (x_out, y_out)) /\
    length x_out = length [1; 2] /\ length y_out = length [1; 2] /\
    forall (i : nat) r d x y, [1; 2] !! i = Some r -> [0.5; 0.25] !! i = Some d ->
      pal_ds2tp r d (true_pointing catalog0 1 0.25).1 (true_pointing catalog0 1 0.25).2 =
        Ok (x, y) ->
      x_out !! i = Some (x * numpy_cos 0.5 - y * numpy_sin 0.5) /\
      y_out !! i = Some (x * numpy_sin 0.5 + y * numpy_cos 0.5).
Proof.
  apply (get_skyToFocalPlane_values catalog0 [1; 2] [0.5; 0.25] metadata0 0.5 1 0.25).
  - vm_compute. reflexivity.
  - vm_compute. reflexivity.
  - vm_compute. reflexivity.
  - simpl. lia.
  - intros [|[|i]] r d Hr Hd; simpl in Hr, Hd; inversion Hr; inversion Hd; reflexivity.
Defined.

Lemma get_skyToFocalPlane_first_failure_witness :
  get_skyToFocalPlane catalog0 [1; -1; 2] [0.5; 0.25; 0] metadata0 =
  Found (Raise (ValueError "star too far from axis")).
Proof.
  refine (proj2 (get_skyToFocalPlane_first_failure catalog0 [1; -1; 2] [0.5; 0.25; 0]
                   metadata0 0.5 1 0.25 1 (-1) _ _ _ _ _)
            0.25 (ValueError "star too far from axis") _ _).
  - vm_compute. reflexivity.
  - vm_compute. reflexivity.
  - vm_compute. reflexivity.
  - reflexivity.
  - intros [|i] ri Hi Hri; [|lia]. simpl in Hri. inversion Hri.
    exists 0.5. split; reflexivity.
  - reflexivity.
  - reflexivity.
Defined.




Lemma applyProperMotion_short_array_witness :
  exists h',
    applyProperMotion catalog0 1%positive 2%positive 3%positive 4%positive 5%positive
      6%positive 2000 2015 heap2 = (h', Raise IndexError) /\
    deref h' 5%positive = clamp <$> deref heap2 5%positive.
Proof.
  apply (applyProperMotion_short_array catalog0 1%positive 2%positive 3%positive
           4%positive 5%positive 6%positive 2000 2015 heap2).
  left. vm_compute. lia.
Defined.

Lemma applyProperMotion_nan_motion_witness :
  exists h' raOut decOut,
    applyProperMotion catalog0 1%positive 2%positive 3%positive 4%positive 5%positive
      6%positive 2000 2015 heap3 = (h', Ok (raOut, decOut)) /\
    forall (i : nat) a b,
      (i < length (deref heap3 1%positive))%nat ->
      deref h' 3%positive !! i = Some a -> deref h' 4%positive !! i = Some b ->
      is_nan a = true -> is_nan b = true ->
      raOut !! i = deref h' 1%positive !! i /\ decOut !! i = deref h' 2%positive !! i.
Proof.
  apply (applyProperMotion_nan_motion catalog0 1%positive 2%positive 3%positive
           4%positive 5%positive 6%positive 2000 2015 heap3);
    vm_compute; lia.
Defined.

Lemma calcLast_already_reduced_witness :
  calcLast 51544.5 0.5 = Ok 1.5.
Proof.
  refine (eq_trans (calcLast_already_reduced 51544.5 0.5 _ _) _); reflexivity.
Defined.

Lemma paralacticAngle_never_nan_witness :
  exists r, paralacticAngle catalog0 0.5 0.25 = Ok r /\ is_nan r = false.
Proof.
  eexists. split; [reflexivity|].
  exact (paralacticAngle_never_nan catalog0 0.5 0.25 eq_refl eq_refl eq_refl).
Defined.

End MoreWitnesses.
